(** * Folder-Sync: a shallow embedding of [sync_folders.py]

    The development models the reconciliation engine of [FileSync]
    ([sync_files] and its three passes) over an explicit file-system
    state, and states the properties of the specification against it.

    Model boundary.  The world is the directory tree below the current
    working directory; paths are strings relative to it, resolved the way
    the host does ([ntpath] on Windows, [posixpath] elsewhere).  A path
    that leaves the working directory (an absolute path, a drive, a
    leading [..]) names nothing in this world: the properties below are
    stated for roots and log paths given by plain components from the
    working directory.  Names are compared case-sensitively, links and
    permissions are not represented.  A timestamp is the modification time
    [os.path.getmtime] reports, counted in microseconds, the resolution of
    the [datetime] values the program compares; local time is UTC, and the
    interpreter is CPython 3.11 on a 64-bit host.  Directory timestamps
    are not tracked ([dir_mtime]).  The log file is a file of the tree, at
    the log path; the lines the program prints are kept in a list. *)

From Stdlib Require Import String Ascii List ZArith Bool Arith Lia.
Import ListNotations.

Local Open Scope string_scope.
Local Open Scope list_scope.

Infix "+++" := String.append (right associativity, at level 60).

(* ------------------------------------------------------------------ *)
(** ** Strings: [str.replace] and membership *)

(** [s.replace(old, new)] for a non-empty [old]: every leftmost,
    non-overlapping occurrence is rewritten.  [skip] counts the characters
    of an occurrence that are still to be dropped. *)
Fixpoint replace_from (old new : string) (skip : nat) (s : string) : string :=
  match s with
  | EmptyString => EmptyString
  | String c s' =>
      match skip with
      | S k => replace_from old new k s'
      | O =>
          if String.prefix old s
          then new +++ replace_from old new (String.length old - 1) s'
          else String c (replace_from old new 0 s')
      end
  end.

(** With an empty [old], Python puts [new] before every character and at
    the end. *)
Fixpoint intersperse (new s : string) : string :=
  match s with
  | EmptyString => new
  | String c s' => new +++ String c (intersperse new s')
  end.

Definition replace (s old new : string) : string :=
  match old with
  | EmptyString => intersperse new s
  | _ => replace_from old new 0 s
  end.

(** [old in s] for strings. *)
Fixpoint contains (old s : string) : bool :=
  String.prefix old s ||
  match s with
  | EmptyString => false
  | String _ s' => contains old s'
  end.

(** [x in l] for a list of strings. *)
Definition mem (x : string) (l : list string) : bool :=
  existsb (String.eqb x) l.

Definition is_nil {A : Type} (l : list A) : bool :=
  match l with [] => true | _ => false end.

(* ------------------------------------------------------------------ *)
(** ** The file system *)

#[warnings="-register-all"]
Inductive node : Type :=
| File (mtime : Z) (data : string)
| Dir (entries : list (string * node)).

(** A directory lists its entries in the order [os.scandir] reports them. *)
Definition entries := list (string * node).

Fixpoint assoc (name : string) (es : entries) : option node :=
  match es with
  | [] => None
  | (n, x) :: es' => if String.eqb n name then Some x else assoc name es'
  end.

Fixpoint put (name : string) (x : node) (es : entries) : entries :=
  match es with
  | [] => [(name, x)]
  | (n, y) :: es' =>
      if String.eqb n name then (n, x) :: es' else (n, y) :: put name x es'
  end.

Fixpoint del (name : string) (es : entries) : entries :=
  match es with
  | [] => []
  | (n, y) :: es' => if String.eqb n name then es' else (n, y) :: del name es'
  end.

(** What resolving a path finds: a node, nothing, or a regular file in
    the place of one of the directories on the way. *)
Inductive found : Type :=
| Found (n : node)
| Missing
| Blocked.

Fixpoint stat (n : node) (p : list string) : found :=
  match p with
  | [] => Found n
  | c :: p' =>
      match n with
      | File _ _ => Blocked
      | Dir es =>
          match assoc c es with
          | Some n' => stat n' p'
          | None => Missing
          end
      end
  end.

Definition lookup (n : node) (p : list string) : option node :=
  match stat n p with
  | Found x => Some x
  | _ => None
  end.

(** [write_at n p new] stores [new] at path [p] ([None] removes the
    entry).  It needs the parent of [p] to be an existing directory. *)
Fixpoint write_at (n : node) (p : list string) (new : option node) : option node :=
  match p, n with
  | [], _ => None
  | _, File _ _ => None
  | [c], Dir es =>
      Some (Dir (match new with
                 | Some x => put c x es
                 | None => del c es
                 end))
  | c :: p', Dir es =>
      match assoc c es with
      | Some child =>
          match write_at child p' new with
          | Some child' => Some (Dir (put c child' es))
          | None => None
          end
      | None => None
      end
  end.

Definition dirnames (es : entries) : list string :=
  map fst (filter (fun e => match snd e with Dir _ => true | File _ _ => false end) es).

Definition filenames (es : entries) : list string :=
  map fst (filter (fun e => match snd e with Dir _ => false | File _ _ => true end) es).

(** Timestamp reported for a directory. *)
Definition dir_mtime : Z := 0%Z.

(* ------------------------------------------------------------------ *)
(** ** Effects: the world, exceptions, and the monad of the program *)

(** The exceptions the calls of the program raise.  [OSError] stands for
    an [OSError] of no more specific class; [except FileNotFoundError]
    does not catch it. *)
Inductive exn : Type :=
| FileNotFoundError
| FileExistsError
| NotADirectoryError
| IsADirectoryError
| PermissionError
| SameFileError
| OSError
| ValueError
| OverflowError.

Definition exn_eqb (a b : exn) : bool :=
  match a, b with
  | FileNotFoundError, FileNotFoundError
  | FileExistsError, FileExistsError
  | NotADirectoryError, NotADirectoryError
  | IsADirectoryError, IsADirectoryError
  | PermissionError, PermissionError
  | SameFileError, SameFileError
  | OSError, OSError
  | ValueError, ValueError
  | OverflowError, OverflowError => true
  | _, _ => false
  end.

(** A line of the log, without its time stamp. *)
Inductive log_line : Type :=
| PathLine (action src rep : string)
| PlainLine (action : string).

(** The line as printed: [[timestamp] - action: src > rep]. *)
Definition render (timestamp : string) (l : log_line) : string :=
  match l with
  | PathLine action src rep =>
      "[" +++ timestamp +++ "] - " +++ action +++ ": " +++ src +++ " > " +++ rep
  | PlainLine action => "[" +++ timestamp +++ "] - " +++ action
  end.

(** The five kinds of action of the specification's data model. *)
Inductive kind : Type := CreateDir | CreateFile | DeleteDir | DeleteFile | ModifyFile.

Record action : Type := mkAction
  { act_kind : kind; sourcePath : string; replicaPath : string }.

(** [cwd] is the tree below the working directory and [log] the lines
    the program has printed, in order.  [issued] and [probed] are ghost
    records, which the program itself does not keep: the actions the cycle
    has started on the file system, and the paths whose timestamp it has
    asked for, both in order.  [clock w k] is the time at which the line
    after [k] printed lines is logged: as [strftime] shows it, and as the
    file system stamps the file written then. *)
Record world : Type := mkWorld
  { cwd : entries;
    log : list log_line;
    issued : list action;
    probed : list string;
    clock : nat -> string * Z }.

Inductive outcome (A : Type) : Type :=
| Ok (a : A) (w : world)
| Raise (e : exn) (w : world).

Arguments Ok {A} a w.
Arguments Raise {A} e w.

Definition M (A : Type) : Type := world -> outcome A.

Definition ret {A : Type} (a : A) : M A := fun w => Ok a w.

Definition bind {A B : Type} (m : M A) (k : A -> M B) : M B :=
  fun w =>
    match m w with
    | Ok a w' => k a w'
    | Raise e w' => Raise e w'
    end.

Definition raise {A : Type} (e : exn) : M A := fun w => Raise e w.

(** [try: body  except e: handler] *)
Definition try_except {A : Type} (body : M A) (e : exn) (handler : M A) : M A :=
  fun w =>
    match body w with
    | Ok a w' => Ok a w'
    | Raise e' w' => if exn_eqb e' e then handler w' else Raise e' w'
    end.

Notation "x <- c1 ;; c2" := (bind c1 (fun x => c2))
  (at level 61, c1 at next level, right associativity).
Notation "c1 ;; c2" := (bind c1 (fun _ => c2))
  (at level 61, right associativity).

(** [for x in l: body(x)] *)
Fixpoint for_each {A : Type} (l : list A) (body : A -> M unit) : M unit :=
  match l with
  | [] => ret tt
  | x :: l' => body x ;; for_each l' body
  end.

Definition final_world {A : Type} (o : outcome A) : world :=
  match o with
  | Ok _ w => w
  | Raise _ w => w
  end.

Definition set_cwd (w : world) (es : entries) : world :=
  mkWorld es (log w) (issued w) (probed w) (clock w).

Definition issue (k : kind) (src rep : string) : M unit :=
  fun w =>
    Ok tt (mkWorld (cwd w) (log w) (issued w ++ [mkAction k src rep])
             (probed w) (clock w)).

Definition probe (path : string) : M unit :=
  fun w =>
    Ok tt (mkWorld (cwd w) (log w) (issued w) (probed w ++ [path]) (clock w)).

(** [print(line)] *)
Definition print (line : log_line) : M unit :=
  fun w =>
    Ok tt (mkWorld (cwd w) (log w ++ [line]) (issued w) (probed w) (clock w)).

(* ------------------------------------------------------------------ *)
(** ** Paths, as the host reads them *)

Inductive platform : Type := Windows | Posix.

Section Host.

Variable host : platform.

Definition is_sep (c : ascii) : bool :=
  match host with
  | Windows => Ascii.eqb c "\" || Ascii.eqb c "/"
  | Posix => Ascii.eqb c "/"
  end.

(** [os.sep] *)
Definition sep : string :=
  match host with
  | Windows => "\"
  | Posix => "/"
  end.

(** The components of a path, empty ones included. *)
Fixpoint split (s : string) : list string :=
  match s with
  | EmptyString => [EmptyString]
  | String c s' =>
      if is_sep c then EmptyString :: split s'
      else match split s' with
           | [] => [String c EmptyString]
           | h :: t => String c h :: t
           end
  end.

(** The loop of [normpath]: drop empty and [.] components, let [..]
    cancel the component before it.  [stack] holds the components kept so
    far, last first. *)
Fixpoint norm_from (stack : list string) (comps : list string) : list string :=
  match comps with
  | [] => rev stack
  | c :: cs =>
      if String.eqb c "" || String.eqb c "." then norm_from stack cs
      else if String.eqb c ".." then
        match stack with
        | [] => norm_from [c] cs
        | top :: st =>
            if String.eqb top ".." then norm_from (c :: stack) cs
            else norm_from st cs
        end
      else norm_from (c :: stack) cs
  end.

(** The components a path resolves to, from the working directory. *)
Definition resolve (p : string) : list string := norm_from [] (split p).

Fixpoint join_with (s : string) (comps : list string) : string :=
  match comps with
  | [] => EmptyString
  | [c] => c
  | c :: cs => c +++ s +++ join_with s cs
  end.

(** [os.path.relpath(p)], for a path below the working directory. *)
Definition relpath (p : string) : string :=
  match resolve p with
  | [] => "."
  | comps => join_with sep comps
  end.

Fixpoint last_char (s : string) : option ascii :=
  match s with
  | EmptyString => None
  | String c EmptyString => Some c
  | String _ s' => last_char s'
  end.

(** [os.path.join(a, b)] for a plain name [b]. *)
Definition path_join (a b : string) : string :=
  match last_char a with
  | None => b
  | Some c =>
      if is_sep c || (match host with Windows => Ascii.eqb c ":" | Posix => false end)
      then a +++ b
      else a +++ sep +++ b
  end.

(** [os.path.basename(p)] *)
Definition basename (p : string) : string := last (split p) EmptyString.

(** [os.walk(top)], top-down with the default [onerror=None]: a
    directory that cannot be listed yields nothing. *)
Fixpoint walk (top : string) (n : node) : list (string * list string * list string) :=
  match n with
  | File _ _ => []
  | Dir es =>
      (top, dirnames es, filenames es) ::
      flat_map (fun e =>
                  match snd e with
                  | Dir _ => walk (path_join top (fst e)) (snd e)
                  | File _ _ => []
                  end) es
  end.

(** [os.walk] from the working directory.  The empty path names no
    directory ([scandir] fails on it), and neither does a path that does
    not resolve to one. *)
Definition os_walk (root : entries) (top : string) : list (string * list string * list string) :=
  if String.eqb top "" then []
  else
    match lookup (Dir root) (resolve top) with
    | Some n => walk top n
    | None => []
    end.

(* ------------------------------------------------------------------ *)
(** ** The operating-system calls of the program *)

(** The error for a path that runs through a regular file. *)
Definition blocked_error : exn :=
  match host with
  | Windows => FileNotFoundError
  | Posix => NotADirectoryError
  end.

(** The error for opening or unlinking a directory as if it were a file. *)
Definition is_dir_error : exn :=
  match host with
  | Windows => PermissionError
  | Posix => IsADirectoryError
  end.

(** Write a change at [p] into the tree of the world.  The parent of [p]
    has to be an existing directory; otherwise the call fails as the host
    does for a missing path. *)
Definition commit (w : world) (p : list string) (new : option node) : outcome unit :=
  match write_at (Dir (cwd w)) p new with
  | Some (Dir es) => Ok tt (set_cwd w es)
  | _ => Raise FileNotFoundError w
  end.

(** [os.mkdir], on resolved components. *)
Definition mkdir_at (p : list string) : M unit :=
  fun w =>
    match stat (Dir (cwd w)) p with
    | Found _ => Raise FileExistsError w
    | Blocked => Raise blocked_error w
    | Missing => commit w p (Some (Dir []))
    end.

(** [os.path.exists], on resolved components. *)
Definition path_exists (p : list string) (w : world) : bool :=
  match stat (Dir (cwd w)) p with
  | Found _ => true
  | _ => false
  end.

(** [os.makedirs(name)] with [exist_ok=False]: make the head first when
    it does not exist, ignoring [FileExistsError] there, then [mkdir] the
    name itself.  [rp] lists the components of the name, last first. *)
Fixpoint makedirs_rev (rp : list string) : M unit :=
  match rp with
  | [] => mkdir_at []
  | _ :: rhead =>
      (match rhead with
       | [] => ret tt
       | _ => fun w =>
           if path_exists (rev rhead) w then Ok tt w
           else try_except (makedirs_rev rhead) FileExistsError (ret tt) w
       end) ;;
      mkdir_at (rev rp)
  end.

Definition makedirs (name : string) : M unit := makedirs_rev (rev (resolve name)).

(** The error of [os.rmdir] on the working directory itself. *)
Definition rmdir_cwd_error : exn :=
  match host with
  | Windows => PermissionError
  | Posix => OSError
  end.

(** [shutil.rmtree(path)]: the content goes first, then the directory.
    On the working directory the last step fails, after the content has
    been removed. *)
Definition rmtree (path : string) : M unit :=
  fun w =>
    let p := resolve path in
    match stat (Dir (cwd w)) p with
    | Missing => Raise FileNotFoundError w
    | Blocked => Raise blocked_error w
    | Found (File _ _) => Raise NotADirectoryError w
    | Found (Dir _) =>
        match p with
        | [] => Raise rmdir_cwd_error (set_cwd w [])
        | _ => commit w p None
        end
    end.

(** [os.remove(path)] *)
Definition os_remove (path : string) : M unit :=
  fun w =>
    let p := resolve path in
    match stat (Dir (cwd w)) p with
    | Missing => Raise FileNotFoundError w
    | Blocked => Raise blocked_error w
    | Found (Dir _) => Raise is_dir_error w
    | Found (File _ _) => commit w p None
    end.

Definition list_eqb (a b : list string) : bool :=
  if list_eq_dec string_dec a b then true else false.

(** [shutil.copy2(src, dst)]: a directory as [dst] receives the file
    under the base name of [src]; content and timestamp are copied. *)
Definition copy2 (src dst : string) : M unit :=
  fun w =>
    let root := Dir (cwd w) in
    let dst :=
      match stat root (resolve dst) with
      | Found (Dir _) => path_join dst (basename src)
      | _ => dst
      end in
    let s := resolve src in
    let d := resolve dst in
    match stat root s with
    | Missing => Raise FileNotFoundError w
    | Blocked => Raise blocked_error w
    | Found (Dir _) => Raise is_dir_error w
    | Found (File m bytes) =>
        if list_eqb s d then Raise SameFileError w
        else
          match stat root d with
          | Found (Dir _) => Raise is_dir_error w
          | Blocked => Raise blocked_error w
          | _ => commit w d (Some (File m bytes))
          end
    end.

(** [os.path.getmtime(path)] *)
Definition getmtime (path : string) : M Z :=
  fun w =>
    match stat (Dir (cwd w)) (resolve path) with
    | Missing => Raise FileNotFoundError w
    | Blocked => Raise blocked_error w
    | Found (Dir _) => Ok dir_mtime w
    | Found (File m _) => Ok m w
    end.

Definition second : Z := 1000000%Z.

(** [datetime.datetime.fromtimestamp(t)].  The time is first cut to the
    [time_t] of the host, then handed to its C library: [localtime_s] of
    Windows takes no time before 1970 and none after the year 3000;
    [localtime_r] of glibc takes every time whose year fits an [int].  A year that [datetime] does not have (the years 1 to 9999,
    less the first day, which the search for a repeated hour leaves) is
    refused last.  The value returned stands for the [datetime]. *)
Definition fromtimestamp (t : Z) : M Z :=
  fun w =>
    if ((t <? - (2 ^ 63) * second) || (2 ^ 63 * second <=? t))%Z
    then Raise OverflowError w
    else
      match host with
      | Windows =>
          if ((t <? 0) || (32535216000 * second <=? t))%Z
          then Raise OSError w
          else Ok t w
      | Posix =>
          if ((t <? - 67768040609740800 * second)
              || (67768036191676800 * second <=? t))%Z
          then Raise OSError w
          else if ((t <? - 62135510400 * second)
                   || (253402300800 * second <=? t))%Z
          then Raise ValueError w
          else Ok t w
      end.

(** [os.linesep], which a file opened in text mode writes for a newline. *)
Definition linesep : string :=
  match host with
  | Windows => String (ascii_of_nat 13) (String (ascii_of_nat 10) EmptyString)
  | Posix => String (ascii_of_nat 10) EmptyString
  end.

(** [with open(path, "a") as f: f.write(text)]: the file is created when
    it is missing, the text goes to its end, and the file carries the
    time [now] of the write. *)
Definition append_text (path text : string) (now : Z) : M unit :=
  fun w =>
    if String.eqb path "" then Raise FileNotFoundError w
    else
      match stat (Dir (cwd w)) (resolve path) with
      | Found (Dir _) => Raise is_dir_error w
      | Blocked => Raise blocked_error w
      | Found (File _ old) =>
          commit w (resolve path) (Some (File now (old +++ text)))
      | Missing => commit w (resolve path) (Some (File now text))
      end.

(** [time.sleep(secs)] for an integer: a negative length is refused, and
    so is one that does not fit the nanoseconds of the interpreter's
    clock, or whose deadline the kernel cannot hold. *)
Definition time_sleep (secs : Z) : M unit :=
  fun w =>
    if (secs <? 0)%Z then Raise ValueError w
    else if (9223372036 <? secs)%Z then Raise OverflowError w
    else if (9223372036 <=? secs)%Z then Raise OSError w
    else Ok tt w.

(* ------------------------------------------------------------------ *)
(** ** [class FileSync] *)

Record FileSync : Type := mkFileSync
  { src_path : string;
    rep_path : string;
    sync_time : Z;
    log_path : string;
    src_folders : list string;
    rep_folders : list string;
    src_files : list string;
    rep_files : list string }.

(** [FileSync.__init__] *)
Definition init (src rep : string) (interval : Z) (logp : string) : FileSync :=
  mkFileSync src rep interval logp [] [] [] [].

(** The line [log_action] writes for an action and two paths. *)
Definition entry (act src rep : string) : log_line :=
  if negb (String.eqb src "") && negb (String.eqb rep "")
  then PathLine act src rep
  else PlainLine act.

(** [FileSync.log_action]: the line goes to the end of the log file,
    then to the console. *)
Definition log_action (self : FileSync) (act src rep : string) : M unit :=
  fun w =>
    let (timestamp, now) := clock w (List.length (log w)) in
    (append_text (log_path self)
       (render timestamp (entry act src rep) +++ linesep) now ;;
     print (entry act src rep)) w.

(** The first component of an item of [os.walk]. *)
Definition dirpath_of (it : string * list string * list string) : string :=
  fst (fst it).

(** The two loops at the head of [sync_files]: one pass over the result
    of [os.walk], appending to the folder list and to the file list.
    [rebase] is the identity for the source and
    [.replace("replica", "source")] for the replica. *)
Definition enumerate (rebase : string -> string)
    (walked : list (string * list string * list string)) : list string * list string :=
  fold_left
    (fun (acc : list string * list string) (item : string * list string * list string) =>
       let '(dirpath, _, fnames) := item in
       let folders := fst acc ++ [rebase (relpath dirpath)] in
       let files :=
         if negb (is_nil fnames)
         then fold_left
                (fun fl file_name =>
                   let file_path := dirpath +++ "\" +++ file_name in
                   fl ++ [rebase (relpath file_path)])
                fnames (snd acc)
         else snd acc in
       (folders, files))
    walked ([], []).

(** The body of the first loop of [_check_item_deletion]. *)
Definition delete_folder (self : FileSync) (folder : string) : M unit :=
  if negb (mem folder (src_folders self)) then
    try_except
      (issue DeleteDir folder (replace folder "source" "replica") ;;
       rmtree (replace folder "source" "replica"))
      FileNotFoundError
      (log_action self "Deleted" folder (replace folder "source" "replica"))
  else ret tt.

(** The body of its second loop. *)
Definition delete_file (self : FileSync) (file_path : string) : M unit :=
  if negb (mem file_path (src_files self)) then
    try_except
      (issue DeleteFile file_path (replace file_path "source" "replica") ;;
       os_remove (replace file_path "source" "replica"))
      FileNotFoundError
      (log_action self "Deleted" file_path (replace file_path "source" "replica"))
  else ret tt.

(** [FileSync._check_item_deletion] *)
Definition _check_item_deletion (self : FileSync) : M unit :=
  for_each (rep_folders self) (delete_folder self) ;;
  for_each (rep_files self) (delete_file self).

(** The body of the first loop of [_check_item_creation]. *)
Definition create_folder (self : FileSync) (folder : string) : M unit :=
  if negb (mem folder (rep_folders self)) then
    issue CreateDir folder (replace folder "source" "replica") ;;
    makedirs (replace folder "source" "replica") ;;
    log_action self "Created" folder (replace folder "source" "replica")
  else ret tt.

(** The body of its second loop. *)
Definition create_file (self : FileSync) (file_path : string) : M unit :=
  if negb (mem file_path (rep_files self)) then
    issue CreateFile file_path (replace file_path "source" "replica") ;;
    copy2 file_path (replace file_path "source" "replica") ;;
    log_action self "Created" file_path (replace file_path "source" "replica")
  else ret tt.

(** [FileSync._check_item_creation] *)
Definition _check_item_creation (self : FileSync) : M unit :=
  for_each (src_folders self) (create_folder self) ;;
  for_each (src_files self) (create_file self).

(** [FileSync._get_file_time] *)
Definition _get_file_time (path : string) : M Z :=
  probe path ;;
  numeric_modification_time <- getmtime path ;;
  fromtimestamp numeric_modification_time.

(** The body of the loop of [_check_item_modification]. *)
Definition modify_file (self : FileSync) (files : string * string) : M unit :=
  let '(src_file, rep_file) := files in
  t_src <- _get_file_time src_file ;;
  t_rep <- _get_file_time (replace rep_file "source" "replica") ;;
  if negb (Z.eqb t_src t_rep) then
    issue ModifyFile src_file (replace rep_file "source" "replica") ;;
    copy2 src_file (replace rep_file "source" "replica") ;;
    log_action self "Modified" src_file (replace rep_file "source" "replica")
  else ret tt.

(** [FileSync._check_item_modification]: the pairs come from [zip]. *)
Definition _check_item_modification (self : FileSync) : M unit :=
  for_each (combine (src_files self) (rep_files self)) (modify_file self).

(** The object as [sync_files] leaves it: the four lists rebuilt from the
    two walks. *)
Definition scanned (self : FileSync) (w : world) : FileSync :=
  let src := enumerate (fun p => p) (os_walk (cwd w) (src_path self)) in
  let rep := enumerate (fun p => replace p "replica" "source")
               (os_walk (cwd w) (rep_path self)) in
  mkFileSync (src_path self) (rep_path self) (sync_time self) (log_path self)
    (fst src) (fst rep) (snd src) (snd rep).

(** [FileSync.sync_files]: one reconciliation cycle.  The result is the
    object with the four lists of this cycle. *)
Definition sync_files (self : FileSync) : M FileSync :=
  fun w =>
    let self := scanned self w in
    (_check_item_deletion self ;;
     _check_item_creation self ;;
     _check_item_modification self ;;
     ret self) w.

(** One turn of the loop of [FileSync.sync_scheduler]: a cycle, the
    completion marker, and the sleep. *)
Definition scheduler_turn (self : FileSync) : M FileSync :=
  self' <- sync_files self ;;
  log_action self' "Successfully synced" "" "" ;;
  time_sleep (sync_time self') ;;
  ret self'.

End Host.

(* ------------------------------------------------------------------ *)
(** ** Well-formed trees and their paths, by components *)

Fixpoint all_chars (f : ascii -> bool) (s : string) : bool :=
  match s with
  | EmptyString => true
  | String c s' => f c && all_chars f s'
  end.

Definition no_sep (host : platform) (s : string) : bool :=
  all_chars (fun c => negb (is_sep host c)) s.

(** Characters a file name cannot hold on the host. *)
Definition is_reserved (host : platform) (c : ascii) : bool :=
  is_sep host c ||
  match host with
  | Windows => Ascii.eqb c ":"
  | Posix => false
  end.

(** A name an entry of a directory can have. *)
Definition plain_name (host : platform) (name : string) : bool :=
  negb (String.eqb name "") && negb (String.eqb name ".") &&
  negb (String.eqb name "..") &&
  all_chars (fun c => negb (is_reserved host c)) name.

(** A name in which neither root name occurs. *)
Definition neutral_name (name : string) : bool :=
  negb (contains "source" name) && negb (contains "replica" name).

Fixpoint nodupb (l : list string) : bool :=
  match l with
  | [] => true
  | x :: l' => negb (mem x l') && nodupb l'
  end.

(** Every directory of the tree lists each name once, and every name
    passes [ok]. *)
Fixpoint wf_node (ok : string -> bool) (n : node) : bool :=
  match n with
  | File _ _ => true
  | Dir es =>
      nodupb (map fst es) &&
      forallb (fun e => ok (fst e) && wf_node ok (snd e)) es
  end.

(** The directories below a node (itself first), in the order of [walk]. *)
Fixpoint dir_paths (n : node) : list (list string) :=
  match n with
  | File _ _ => []
  | Dir es => [] :: flat_map (fun e => map (cons (fst e)) (dir_paths (snd e))) es
  end.

(** The files below a node, directory by directory in the order of [walk]. *)
Fixpoint file_paths (n : node) : list (list string) :=
  match n with
  | File _ _ => []
  | Dir es =>
      map (fun f => [f]) (filenames es) ++
      flat_map (fun e => map (cons (fst e)) (file_paths (snd e))) es
  end.

Definition is_dir (n : node) : bool :=
  match n with Dir _ => true | File _ _ => false end.




(** [graft n p x]: the tree [n] with the node at the existing path [p]
    replaced by [x]. *)
Fixpoint graft (n : node) (p : list string) (x : node) : node :=
  match p with
  | [] => x
  | c :: p' =>
      match n with
      | File _ _ => n
      | Dir es =>
          match assoc c es with
          | Some child => Dir (put c (graft child p' x) es)
          | None => n
          end
      end
  end.


(** A name the root rewriting leaves alone: plain on Windows, and holding
    neither root name. *)
Definition sync_name (name : string) : bool :=
  plain_name Windows name && neutral_name name.

(** A name the rewriting of a source path leaves alone: plain on
    Windows, and not holding the name of the source root. *)
Definition own_name (name : string) : bool :=
  plain_name Windows name && negb (contains "source" name).







(** The paths the enumeration records for the components [p] below the
    source root, and where the cycle puts them in the replica. *)
Definition source_path (p : list string) : string := join_with "\" ("source" :: p).

Definition replica_path (p : list string) : string := join_with "\" ("replica" :: p).



(* ------------------------------------------------------------------ *)
(** ** Notions the properties are stated with *)

(** What a path shows to the convergence check: a directory, a file with
    its timestamp, or nothing. *)
Inductive seen : Type := SeenDir | SeenFile (mtime : Z) | Unseen.

Definition observe (n : node) (p : list string) : seen :=
  match stat n p with
  | Found (Dir _) => SeenDir
  | Found (File m _) => SeenFile m
  | _ => Unseen
  end.

(** The times [fromtimestamp] converts on the host. *)
Definition convertible (host : platform) (t : Z) : bool :=
  match host with
  | Windows => (0 <=? t)%Z && (t <? 32535216000 * second)%Z
  | Posix => (- 62135510400 * second <=? t)%Z && (t <? 253402300800 * second)%Z
  end.

(** Every file of the tree carries a time that converts. *)
Fixpoint timely (host : platform) (n : node) : bool :=
  match n with
  | File m _ => convertible host m
  | Dir es => forallb (fun e => timely host (snd e)) es
  end.






(** Rebasing as the specification words it: the path relative to the
    first root, composed with the second root. *)
Fixpoint strip_root (r p : list string) : option (list string) :=
  match r, p with
  | [], _ => Some p
  | a :: r', b :: p' => if String.eqb a b then strip_root r' p' else None
  | _ :: _, [] => None
  end.

Definition rebase_by_composition (host : platform) (r1 r2 : list string)
    (path : string) : option string :=
  match strip_root r1 (resolve host path) with
  | Some rest => Some (join_with (sep host) (r2 ++ rest))
  | None => None
  end.

(** Enumeration as the specification words it: the directories and the
    files beneath the root, each by its path relative to that root. *)
Definition relative_enumeration (host : platform) (root : entries) (top : string)
    : list string * list string :=
  match lookup (Dir root) (resolve host top) with
  | Some n =>
      (map (join_with (sep host)) (tl (dir_paths n)),
       map (join_with (sep host)) (file_paths n))
  | None => ([], [])
  end.

(** The ModifyFile set as the specification words it: the source files
    that are also in the replica enumeration and whose two timestamps
    differ, paired by path. *)
Definition differs (host : platform) (w : world) (file_path : string) : bool :=
  match getmtime host file_path w,
        getmtime host (replace file_path "source" "replica") w with
  | Ok a _, Ok b _ => negb (Z.eqb a b)
  | _, _ => false
  end.

Definition modify_set_by_path (host : platform) (self : FileSync) (w : world)
    : list string :=
  filter (fun f => mem f (rep_files self) && differs host w f) (src_files self).

(** The files the cycle treated as modified: the source paths of the
    ModifyFile actions it issued. *)
Definition modified_by_cycle (w : world) : list string :=
  map sourcePath
    (filter (fun a => match act_kind a with ModifyFile => true | _ => false end)
       (issued w)).

(** The work of a cycle after the deletions, item by item. *)
Inductive item : Type :=
| FolderItem (folder : string)
| FileItem (file_path : string)
| PairItem (files : string * string).

Definition cycle_items (self : FileSync) : list item :=
  map FolderItem (src_folders self) ++
  map FileItem (src_files self) ++
  map PairItem (combine (src_files self) (rep_files self)).

Definition run_item (host : platform) (self : FileSync) (it : item) : M unit :=
  match it with
  | FolderItem folder => create_folder host self folder
  | FileItem file_path => create_file host self file_path
  | PairItem files => modify_file host self files
  end.

(** [emits P m]: whatever the outcome, [m] adds to the issued actions
    only actions that satisfy [P]. *)
Definition emits {A : Type} (P : action -> Prop) (m : M A) : Prop :=
  forall w, exists l,
    issued (final_world (m w)) = issued w ++ l /\ Forall P l.

(** A computation that leaves a component of the world as it is. *)
Definition preserves {X A : Type} (proj : world -> X) (m : M A) : Prop :=
  forall w, proj (final_world (m w)) = proj w.

(** A computation that leaves the record of issued actions as it is. *)
Definition silent {A : Type} (m : M A) : Prop := preserves issued m.

Definition is_deletion (a : action) : Prop :=
  act_kind a = DeleteDir \/ act_kind a = DeleteFile.

(** The actions a run has added to the ghost record. *)
Definition new_actions {A : Type} (w : world) (o : outcome A) : list action :=
  skipn (List.length (issued w)) (issued (final_world o)).

(** [in_phases Ps l]: the list is made of consecutive segments, one per
    predicate of [Ps] and in that order, each segment satisfying its
    predicate. *)
Fixpoint in_phases (Ps : list (action -> Prop)) (l : list action) : Prop :=
  match Ps with
  | [] => l = []
  | P :: Ps' => exists l1 l2, l = l1 ++ l2 /\ Forall P l1 /\ in_phases Ps' l2
  end.

Definition emits_phases {A : Type} (Ps : list (action -> Prop)) (m : M A) : Prop :=
  forall w, exists l,
    issued (final_world (m w)) = issued w ++ l /\ in_phases Ps l.

Definition has_kind (k : kind) (a : action) : Prop := act_kind a = k.


(** The paths a run has asked the timestamp of. *)
Definition new_probes {A : Type} (w : world) (o : outcome A) : list string :=
  skipn (List.length (probed w)) (probed (final_world o)).

(** [asks P m]: whatever the outcome, [m] asks only for the timestamp of
    paths that satisfy [P]. *)
Definition asks {A : Type} (P : string -> Prop) (m : M A) : Prop :=
  forall w, exists l,
    probed (final_world (m w)) = probed w ++ l /\ Forall P l.


(** Every replica path of an action is [.replace("source", "replica")] of
    a recorded path: of the source path of the action, or, for a
    modification, of the replica file paired with it. *)
Definition rebased_by_replace (self : FileSync) (a : action) : Prop :=
  match act_kind a with
  | ModifyFile =>
      exists r, In r (rep_files self) /\
                replicaPath a = replace r "source" "replica"
  | _ => replicaPath a = replace (sourcePath a) "source" "replica"
  end.

(** [call_fails host self it w e w']: in the world [w] the item [it] gets
    to a call of the operating system (the directory creation, the copy,
    or one of the two timestamp readings), and that call raises [e] and
    leaves the world [w']. *)
Inductive call_fails (host : platform) (self : FileSync)
    : item -> world -> exn -> world -> Prop :=
| makedirs_fails (folder : string) (w : world) (e : exn) (w' : world) :
    mem folder (rep_folders self) = false ->
    (issue CreateDir folder (replace folder "source" "replica") ;;
     makedirs host (replace folder "source" "replica")) w = Raise e w' ->
    call_fails host self (FolderItem folder) w e w'
| copy_fails (file_path : string) (w : world) (e : exn) (w' : world) :
    mem file_path (rep_files self) = false ->
    (issue CreateFile file_path (replace file_path "source" "replica") ;;
     copy2 host file_path (replace file_path "source" "replica")) w = Raise e w' ->
    call_fails host self (FileItem file_path) w e w'
| source_time_fails (src_file rep_file : string) (w : world) (e : exn) (w' : world) :
    _get_file_time host src_file w = Raise e w' ->
    call_fails host self (PairItem (src_file, rep_file)) w e w'
| replica_time_fails (src_file rep_file : string) (w : world) (t : Z) (w1 : world)
    (e : exn) (w' : world) :
    _get_file_time host src_file w = Ok t w1 ->
    _get_file_time host (replace rep_file "source" "replica") w1 = Raise e w' ->
    call_fails host self (PairItem (src_file, rep_file)) w e w'
| overwrite_fails (src_file rep_file : string) (w : world) (t1 : Z) (w1 : world)
    (t2 : Z) (w2 : world) (e : exn) (w' : world) :
    _get_file_time host src_file w = Ok t1 w1 ->
    _get_file_time host (replace rep_file "source" "replica") w1 = Ok t2 w2 ->
    t1 <> t2 ->
    (issue ModifyFile src_file (replace rep_file "source" "replica") ;;
     copy2 host src_file (replace rep_file "source" "replica")) w2 = Raise e w' ->
    call_fails host self (PairItem (src_file, rep_file)) w e w'.

(* ------------------------------------------------------------------ *)
(** ** Sample worlds *)

(** The object of the usage example: roots [source] and [replica] in the
    working directory. *)
Definition sample_sync : FileSync := init "source" "replica" 60 "log_file.txt".

(** A clock that shows one second for all its lines and stamps the file
    a microsecond later at every write. *)
Definition sample_clock (k : nat) : string * Z :=
  ("2024-05-17 10:00:00", (1715940000 * second + Z.of_nat k)%Z).

(** The world at the start of a run: nothing printed, nothing recorded. *)
Definition fresh_world (root : entries) : world :=
  mkWorld root [] [] [] sample_clock.

(** The tree with an empty log file of the sample object in it. *)
Definition with_log (root : entries) : entries :=
  root ++ [("log_file.txt", File (1715939999 * second) "")].


(** A source with one file and one empty sub-directory. *)
Definition small_tree : entries :=
  [("source", Dir [("a.txt", File 1 "A"); ("d", Dir [])]);
   ("replica", Dir [])].

(** The replica holds a stale copy of [b.txt] and lacks [a.txt]. *)
Definition stale_tree : entries :=
  [("source", Dir [("a.txt", File 1 "A"); ("b.txt", File 2 "B")]);
   ("replica", Dir [("b.txt", File 3 "old")])].

(** The replica holds a file and a populated directory the source lacks. *)
Definition leftover_tree : entries :=
  [("source", Dir []);
   ("replica", Dir [("old.txt", File 3 "x");
                    ("gone", Dir [("f.txt", File 1 "")])])].

(** No source directory at all. *)
Definition orphan_tree : entries :=
  [("replica", Dir [("keep.txt", File 3 "x")])].

(** Two source directories named after the roots. *)
Definition namesake_tree : entries :=
  [("source", Dir [("replica", Dir []); ("source", Dir [])]);
   ("replica", Dir [])].

(** The replica path is taken by a regular file. *)
Definition occupied_tree : entries :=
  [("source", Dir [("a.txt", File 1 "A")]);
   ("replica", File 9 "not a directory")].

(** The replica holds a file the source lacks, and lacks the file the
    source holds. *)
Definition ousted_tree : entries :=
  [("source", Dir [("a.txt", File 1 "A")]);
   ("replica", Dir [("old.txt", File 3 "x")])].

(** A source with nested directories and files, and an empty replica. *)
Definition nested_source : entries :=
  [("a.txt", File 1 "A");
   ("d", Dir [("e", Dir []); ("f.txt", File 5 "F")]);
   ("b.txt", File 2 "B")].

Definition nested_tree : entries :=
  [("source", Dir nested_source); ("replica", Dir [])].




(* ------------------------------------------------------------------ *)
(** ** The scheduler and the log file *)

(** The loop of [FileSync.sync_scheduler], cut after [n] turns.  Each
    turn works on the object the turn before has left. *)
Fixpoint scheduler_loop (host : platform) (n : nat) (self : FileSync) : M FileSync :=
  match n with
  | O => ret self
  | S n' => self' <- scheduler_turn host self ;; scheduler_loop host n' self'
  end.

(** [os.path.exists(path)]: the empty path names nothing. *)
Definition os_path_exists (host : platform) (path : string) (w : world) : bool :=
  negb (String.eqb path "") && path_exists (resolve host path) w.

(** [open(path, "w").close()]: the file is created empty, or emptied,
    and carries the time [now] of the call. *)
Definition open_w_close (host : platform) (path : string) (now : Z) : M unit :=
  fun w =>
    if String.eqb path "" then Raise FileNotFoundError w
    else
      match stat (Dir (cwd w)) (resolve host path) with
      | Found (Dir _) => Raise (is_dir_error host) w
      | Blocked => Raise (blocked_error host) w
      | _ => commit w (resolve host path) (Some (File now ""))
      end.

(** [FileSync.set_log_file] *)
Definition set_log_file (host : platform) (self : FileSync) (now : Z) : M unit :=
  fun w =>
    if negb (os_path_exists host (log_path self) w)
    then open_w_close host (log_path self) now w
    else Ok tt w.

(* ------------------------------------------------------------------ *)
(** ** Notions for the printed lines and for the outcome of a run *)

(** The word the cycle logs for an action of each kind. *)
Definition label (k : kind) : string :=
  match k with
  | CreateDir | CreateFile => "Created"
  | DeleteDir | DeleteFile => "Deleted"
  | ModifyFile => "Modified"
  end.

(** The line that reports an action. *)
Definition line_of (a : action) : log_line :=
  entry (label (act_kind a)) (sourcePath a) (replicaPath a).

Definition line_label (l : log_line) : string :=
  match l with
  | PathLine act _ _ => act
  | PlainLine act => act
  end.

(** A line about one item: one of the three labels and two paths, none
    of them empty. *)
Definition is_item_line (l : log_line) : bool :=
  match l with
  | PathLine act src rep =>
      (String.eqb act "Created" || String.eqb act "Deleted" || String.eqb act "Modified")
      && negb (String.eqb src "") && negb (String.eqb rep "")
  | PlainLine _ => false
  end.

(** The completion line of the scheduler. *)
Definition is_marker (l : log_line) : bool :=
  match l with
  | PlainLine act => String.eqb act "Successfully synced"
  | PathLine _ _ _ => false
  end.

Definition is_deletion_kind (k : kind) : bool :=
  match k with
  | DeleteDir | DeleteFile => true
  | _ => false
  end.

(** The lines a run has printed. *)
Definition new_lines {A : Type} (w : world) (o : outcome A) : list log_line :=
  skipn (List.length (log w)) (log (final_world o)).

(** [writes P m]: whatever the outcome, [m] only adds to the printed
    lines, and every line it prints satisfies [P]. *)
Definition writes {A : Type} (P : log_line -> Prop) (m : M A) : Prop :=
  forall w, exists l,
    log (final_world (m w)) = log w ++ l /\ Forall P l.

(** [reports m]: when [m] completes, it has only appended to the ghost
    record and to the printed lines, and the lines are those of the
    actions, one for one. *)
Definition reports {A : Type} (m : M A) : Prop :=
  forall w a w', m w = Ok a w' ->
    exists l, issued w' = issued w ++ l /\ log w' = log w ++ map line_of l.

Definition completed {A : Type} (o : outcome A) : bool :=
  match o with
  | Ok _ _ => true
  | Raise _ _ => false
  end.


(* ------------------------------------------------------------------ *)
(** ** A replica in step with its source *)

(** The replica tree [rtree] is in step with the source tree [tree]: it
    lists the same directories and the same files in the same order, and
    every file shows the timestamp of its source file.  Contents are not
    compared. *)
Definition in_step (tree rtree : entries) : Prop :=
  wf_node sync_name (Dir rtree) = true /\
  dir_paths (Dir rtree) = dir_paths (Dir tree) /\
  file_paths (Dir rtree) = file_paths (Dir tree) /\
  map (observe (Dir rtree)) (file_paths (Dir tree))
  = map (observe (Dir tree)) (file_paths (Dir tree)).

(** The replica holds an older content of [a.txt] under the timestamp of
    the source file. *)
Definition unnoticed_tree : entries :=
  [("source", Dir [("a.txt", File 1 "new"); ("d", Dir [])]);
   ("replica", Dir [("a.txt", File 1 "old"); ("d", Dir [])])].

Definition completion_line : log_line := PlainLine "Successfully synced".

(* ================================================================== *)
(** * Lemmas *)

(* ------------------------------------------------------------------ *)
(** ** Strings *)

Lemma append_nil_r (s : string) : s +++ "" = s.
Proof. induction s as [|c s IH]; simpl; [reflexivity | now rewrite IH]. Qed.

Lemma append_assoc (a b c : string) : (a +++ b) +++ c = a +++ b +++ c.
Proof. induction a as [|x a IH]; simpl; [reflexivity | now rewrite IH]. Qed.

Lemma length_append (a b : string) :
  String.length (a +++ b) = String.length a + String.length b.
Proof. induction a as [|x a IH]; simpl; [reflexivity | now rewrite IH]. Qed.


Lemma prefix_append (a b : string) : String.prefix a (a +++ b) = true.
Proof.
  induction a as [|x a IH]; simpl.
  - now destruct b.
  - destruct (ascii_dec x x) as [_|n]; [exact IH | now elim n].
Qed.

Lemma prefix_nil_r (a : string) : a <> "" -> String.prefix a "" = false.
Proof. destruct a; [now intros [] | reflexivity]. Qed.

(** A pattern without the character [c] cannot reach over a [c]. *)
Lemma prefix_stops_at (c : ascii) (old t b : string) :
  all_chars (fun x => negb (Ascii.eqb x c)) old = true ->
  String.prefix old (t +++ String c b) = true ->
  String.prefix old t = true.
Proof.
  revert old. induction t as [|y t IH]; intros old Hold H.
  - destruct old as [|x old]; [reflexivity |].
    simpl in H, Hold. destruct (ascii_dec x c) as [->|_]; [| discriminate].
    rewrite Ascii.eqb_refl in Hold. discriminate.
  - destruct old as [|x old]; [reflexivity |].
    simpl in H |- *. simpl in Hold.
    apply andb_true_iff in Hold as [_ Hold].
    destruct (ascii_dec x y); [now apply IH | discriminate].
Qed.

Lemma contains_false_prefix (old s : string) :
  contains old s = false -> String.prefix old s = false.
Proof.
  destruct s; simpl; intros H; apply orb_false_iff in H; tauto.
Qed.

Lemma contains_nonempty (old s : string) : contains old s = false -> old <> "".
Proof.
  intros H ->. destruct s; discriminate.
Qed.

(** An occurrence cannot straddle a character the pattern does not have. *)
Lemma contains_across (c : ascii) (old a b : string) :
  all_chars (fun x => negb (Ascii.eqb x c)) old = true ->
  contains old a = false ->
  contains old b = false ->
  contains old (a +++ String c b) = false.
Proof.
  intros Hold Ha Hb. pose proof (contains_nonempty _ _ Ha) as Hne.
  induction a as [|y a IH].
  - simpl. rewrite Hb, orb_false_r.
    destruct old as [|x old]; [now elim Hne |].
    simpl in Hold. apply andb_true_iff in Hold as [Hx _].
    destruct (ascii_dec x c) as [->|_]; [| reflexivity].
    rewrite Ascii.eqb_refl in Hx. discriminate.
  - pose proof (contains_false_prefix _ _ Ha) as Hp.
    simpl in Ha. apply orb_false_iff in Ha as [_ Ha].
    change (contains old (String y a +++ String c b))
      with (String.prefix old (String y (a +++ String c b))
            || contains old (a +++ String c b)).
    rewrite (IH Ha), orb_false_r.
    destruct (String.prefix old (String y (a +++ String c b))) eqn:E; [| reflexivity].
    apply (prefix_stops_at c old (String y a) b Hold) in E. congruence.
Qed.

Lemma replace_from_skip (old new t s : string) :
  replace_from old new (String.length t) (t +++ s) = replace_from old new 0 s.
Proof.
  induction t as [|y t IH]; simpl; [| exact IH].
  destruct s; reflexivity.
Qed.

Lemma replace_from_absent (old new s : string) :
  contains old s = false -> replace_from old new 0 s = s.
Proof.
  induction s as [|y s IH]; intros H; [reflexivity |].
  pose proof (contains_false_prefix _ _ H) as Hp.
  simpl in H. apply orb_false_iff in H as [_ H].
  cbn [replace_from]. rewrite Hp, (IH H). reflexivity.
Qed.

Lemma replace_absent (s old new : string) :
  contains old s = false -> replace s old new = s.
Proof.
  intros H. pose proof (contains_nonempty _ _ H) as Hne.
  unfold replace. destruct old; [now elim Hne |].
  now apply replace_from_absent.
Qed.

(** A leading occurrence is rewritten and the rest is scanned after it. *)
Lemma replace_head (old new s : string) :
  old <> "" -> replace (old +++ s) old new = new +++ replace s old new.
Proof.
  intros Hne. unfold replace. destruct old as [|x old]; [now elim Hne |].
  change ((String x old) +++ s) with (String x (old +++ s)).
  cbn [replace_from].
  change (String x (old +++ s)) with ((String x old) +++ s).
  rewrite prefix_append.
  assert (String.length (String x old) - 1 = String.length old) as ->
    by (simpl; lia).
  now rewrite replace_from_skip.
Qed.

Lemma replace_nil (old new : string) : old <> "" -> replace "" old new = "".
Proof. intros H. unfold replace. destruct old; [now elim H | reflexivity]. Qed.

(* ------------------------------------------------------------------ *)
(** ** Paths made of plain names *)

Lemma all_chars_impl (f g : ascii -> bool) (s : string) :
  (forall c, f c = true -> g c = true) ->
  all_chars f s = true -> all_chars g s = true.
Proof.
  intros Hfg. induction s as [|c s IH]; simpl; [reflexivity |].
  intros H. apply andb_true_iff in H as [Hc Hs].
  now rewrite (Hfg _ Hc), (IH Hs).
Qed.

Lemma plain_name_parts (host : platform) (name : string) :
  plain_name host name = true ->
  name <> "" /\ name <> "." /\ name <> ".." /\
  all_chars (fun c => negb (is_reserved host c)) name = true.
Proof.
  unfold plain_name. intros H.
  repeat (apply andb_true_iff in H as [H ?]).
  repeat split; try assumption;
    intros ->; discriminate.
Qed.

Lemma plain_no_sep (host : platform) (name : string) :
  plain_name host name = true -> no_sep host name = true.
Proof.
  intros H. apply plain_name_parts in H as (_ & _ & _ & H).
  revert H. apply all_chars_impl. intros c Hc.
  unfold is_reserved in Hc. apply negb_true_iff in Hc.
  apply orb_false_iff in Hc as [Hc _]. now rewrite Hc.
Qed.

Lemma sep_shape (host : platform) :
  exists c, sep host = String c "" /\ is_sep host c = true.
Proof. destruct host; eexists; split; reflexivity. Qed.

Lemma split_not_nil (host : platform) (s : string) : split host s <> [].
Proof.
  induction s as [|c s IH]; simpl; [discriminate |].
  destruct (is_sep host c); [discriminate |].
  destruct (split host s); discriminate.
Qed.

Lemma split_component (host : platform) (a : string) (c : ascii) (rest : string) :
  no_sep host a = true -> is_sep host c = true ->
  split host (a +++ String c rest) = a :: split host rest.
Proof.
  intros Ha Hc. induction a as [|x a IH]; simpl.
  - now rewrite Hc.
  - unfold no_sep in Ha. simpl in Ha. apply andb_true_iff in Ha as [Hx Ha].
    apply negb_true_iff in Hx. rewrite Hx, (IH Ha). reflexivity.
Qed.

Lemma split_single (host : platform) (a : string) :
  no_sep host a = true -> split host a = [a].
Proof.
  intros Ha. induction a as [|x a IH]; simpl; [reflexivity |].
  unfold no_sep in Ha. simpl in Ha. apply andb_true_iff in Ha as [Hx Ha].
  apply negb_true_iff in Hx. rewrite Hx, (IH Ha). reflexivity.
Qed.

Lemma join_with_cons (s c : string) (cs : list string) :
  cs <> [] -> join_with s (c :: cs) = c +++ s +++ join_with s cs.
Proof. destruct cs; [now intros [] | reflexivity]. Qed.

Lemma join_with_snoc (s : string) (comps : list string) (name : string) :
  comps <> [] ->
  join_with s (comps ++ [name]) = join_with s comps +++ s +++ name.
Proof.
  induction comps as [|c cs IH]; [now intros [] |]. intros _.
  destruct cs as [|d cs]; [reflexivity |].
  change ((c :: d :: cs) ++ [name]) with (c :: ((d :: cs) ++ [name])).
  rewrite join_with_cons by (destruct cs; discriminate).
  rewrite IH by discriminate.
  rewrite (join_with_cons s c (d :: cs)) by discriminate.
  now rewrite !append_assoc.
Qed.

Lemma split_join (host : platform) (comps : list string) :
  comps <> [] -> forallb (no_sep host) comps = true ->
  split host (join_with (sep host) comps) = comps.
Proof.
  destruct (sep_shape host) as (sc & Hs & Hsc). rewrite Hs.
  induction comps as [|c cs IH]; [now intros [] |]. intros _ H.
  simpl in H. apply andb_true_iff in H as [Hc Hcs].
  destruct cs as [|d cs]; [now apply split_single |].
  rewrite join_with_cons by discriminate.
  change (String sc "" +++ join_with (String sc "") (d :: cs))
    with (String sc (join_with (String sc "") (d :: cs))).
  rewrite (split_component host c sc _ Hc Hsc).
  now rewrite IH.
Qed.

Lemma norm_from_plain (host : platform) (comps stack : list string) :
  forallb (plain_name host) comps = true ->
  norm_from stack comps = rev stack ++ comps.
Proof.
  revert stack. induction comps as [|c cs IH]; intros stack H; simpl.
  - now rewrite app_nil_r.
  - simpl in H. apply andb_true_iff in H as [Hc Hcs].
    apply plain_name_parts in Hc as (H1 & H2 & H3 & _).
    apply String.eqb_neq in H1, H2, H3. rewrite H1, H2, H3. simpl.
    rewrite (IH _ Hcs). simpl. now rewrite <- app_assoc.
Qed.

Lemma forallb_plain_no_sep (host : platform) (comps : list string) :
  forallb (plain_name host) comps = true -> forallb (no_sep host) comps = true.
Proof.
  induction comps as [|c cs IH]; simpl; [reflexivity |].
  intros H. apply andb_true_iff in H as [Hc Hcs].
  now rewrite (plain_no_sep _ _ Hc), (IH Hcs).
Qed.

Lemma resolve_join (host : platform) (comps : list string) :
  comps <> [] -> forallb (plain_name host) comps = true ->
  resolve host (join_with (sep host) comps) = comps.
Proof.
  intros Hne H. unfold resolve.
  rewrite split_join by (auto using forallb_plain_no_sep).
  now rewrite (norm_from_plain host).
Qed.

Lemma relpath_join (host : platform) (comps : list string) :
  comps <> [] -> forallb (plain_name host) comps = true ->
  relpath host (join_with (sep host) comps) = join_with (sep host) comps.
Proof.
  intros Hne H. unfold relpath. rewrite resolve_join by assumption.
  destruct comps; [now elim Hne | reflexivity].
Qed.

Lemma last_char_append (a b : string) :
  b <> "" -> last_char (a +++ b) = last_char b.
Proof.
  intros Hb. induction a as [|x a IH]; [reflexivity |].
  simpl. rewrite IH. destruct (a +++ b) eqn:E; [| reflexivity].
  destruct a; simpl in E; [now elim Hb | discriminate].
Qed.

Lemma last_char_plain (host : platform) (name : string) :
  plain_name host name = true ->
  exists c, last_char name = Some c /\ is_reserved host c = false.
Proof.
  intros H. apply plain_name_parts in H as (Hne & _ & _ & H).
  induction name as [|x s IH]; [now elim Hne |].
  simpl in H. apply andb_true_iff in H as [Hx Hs].
  destruct s as [|y s].
  - exists x. split; [reflexivity | now apply negb_true_iff].
  - destruct IH as (c & Hc & Hr); [discriminate | assumption |].
    exists c. split; [| assumption]. exact Hc.
Qed.

Lemma last_char_join (host : platform) (comps : list string) :
  comps <> [] -> forallb (plain_name host) comps = true ->
  exists c, last_char (join_with (sep host) comps) = Some c /\
            is_reserved host c = false.
Proof.
  induction comps as [|c cs IH]; [now intros [] |]. intros _ H.
  simpl in H. apply andb_true_iff in H as [Hc Hcs].
  destruct cs as [|d cs]; [now apply last_char_plain |].
  rewrite join_with_cons by discriminate.
  destruct IH as (x & Hx & Hr); [discriminate | assumption |].
  exists x. split; [| assumption].
  rewrite <- append_assoc, last_char_append; [exact Hx |].
  intros E. rewrite E in Hx. discriminate.
Qed.

(** Joining a plain path and a name, the way [os.walk] builds [dirpath]. *)
Lemma path_join_plain (host : platform) (comps : list string) (name : string) :
  comps <> [] -> forallb (plain_name host) comps = true ->
  path_join host (join_with (sep host) comps) name
  = join_with (sep host) (comps ++ [name]).
Proof.
  intros Hne H. unfold path_join.
  destruct (last_char_join host comps Hne H) as (c & -> & Hr).
  unfold is_reserved in Hr. rewrite Hr.
  now rewrite join_with_snoc.
Qed.

Lemma join_with_not_empty (host : platform) (s : string) (comps : list string) :
  comps <> [] -> forallb (plain_name host) comps = true ->
  join_with s comps <> "".
Proof.
  destruct comps as [|c cs]; [now intros [] |]. intros _ H.
  cbn [forallb] in H. apply andb_true_iff in H as [Hc _].
  apply plain_name_parts in Hc as (Hc & _).
  destruct c as [|a c']; [now elim Hc |].
  destruct cs; discriminate.
Qed.

Lemma forallb_app_true {A : Type} (f : A -> bool) (l1 l2 : list A) :
  forallb f l1 = true -> forallb f l2 = true -> forallb f (l1 ++ l2) = true.
Proof. intros H1 H2. rewrite forallb_app, H1, H2. reflexivity. Qed.

(* ------------------------------------------------------------------ *)
(** ** [str.replace] on joined paths *)

Lemma contains_nil (old : string) : old <> "" -> contains old "" = false.
Proof. intros H. cbn [contains]. now rewrite prefix_nil_r. Qed.

Lemma contains_join (sc : ascii) (old : string) (comps : list string) :
  old <> "" ->
  all_chars (fun x => negb (Ascii.eqb x sc)) old = true ->
  forallb (fun c => negb (contains old c)) comps = true ->
  contains old (join_with (String sc "") comps) = false.
Proof.
  intros Hne Hold. induction comps as [|c cs IH]; intros H.
  - now apply contains_nil.
  - simpl in H. apply andb_true_iff in H as [Hc Hcs].
    apply negb_true_iff in Hc.
    destruct cs as [|d cs]; [exact Hc |].
    rewrite join_with_cons by discriminate.
    apply contains_across; auto.
Qed.

(** Rewriting the root name at the head of a path whose other components
    do not contain it swaps the root and nothing else. *)
Lemma replace_root (sc : ascii) (old new : string) (comps : list string) :
  old <> "" ->
  all_chars (fun x => negb (Ascii.eqb x sc)) old = true ->
  forallb (fun c => negb (contains old c)) comps = true ->
  replace (join_with (String sc "") (old :: comps)) old new
  = join_with (String sc "") (new :: comps).
Proof.
  intros Hne Hold H. destruct comps as [|d cs].
  - simpl. rewrite <- (append_nil_r old) at 1.
    rewrite replace_head by assumption.
    now rewrite replace_nil, append_nil_r.
  - rewrite (join_with_cons _ old), (join_with_cons _ new) by discriminate.
    rewrite replace_head by assumption. f_equal.
    apply replace_absent.
    apply (contains_across sc old "" (join_with (String sc "") (d :: cs)) Hold).
    + now apply contains_nil.
    + now apply contains_join.
Qed.

Lemma neutral_forallb (comps : list string) :
  forallb neutral_name comps = true ->
  forallb (fun c => negb (contains "source" c)) comps = true /\
  forallb (fun c => negb (contains "replica" c)) comps = true.
Proof.
  induction comps as [|c cs IH]; simpl; [auto |].
  intros H. apply andb_true_iff in H as [Hc Hcs].
  unfold neutral_name in Hc. apply andb_true_iff in Hc as [H1 H2].
  destruct (IH Hcs) as [I1 I2]. now rewrite H1, H2, I1, I2.
Qed.

Lemma to_replica_join (comps : list string) :
  forallb neutral_name comps = true ->
  replace (join_with "\" ("source" :: comps)) "source" "replica"
  = join_with "\" ("replica" :: comps).
Proof.
  intros H. apply neutral_forallb in H as [H _].
  apply (replace_root "\" "source" "replica"); [discriminate | reflexivity | exact H].
Qed.

Lemma to_source_join (comps : list string) :
  forallb neutral_name comps = true ->
  replace (join_with "\" ("replica" :: comps)) "replica" "source"
  = join_with "\" ("source" :: comps).
Proof.
  intros H. apply neutral_forallb in H as [_ H].
  apply (replace_root "\" "replica" "source"); [discriminate | reflexivity | exact H].
Qed.

(* ------------------------------------------------------------------ *)
(** ** The enumeration loops *)

Lemma fold_left_snoc_map {A B : Type} (g : A -> B) (l : list A) (acc : list B) :
  fold_left (fun fl x => fl ++ [g x]) l acc = acc ++ map g l.
Proof.
  revert acc. induction l as [|x l IH]; intros acc; simpl.
  - now rewrite app_nil_r.
  - rewrite IH, <- app_assoc. reflexivity.
Qed.

(** The two lists [enumerate] builds, without the accumulators. *)
Lemma enumerate_lists (host : platform) (rebase : string -> string)
    (walked : list (string * list string * list string)) :
  enumerate host rebase walked
  = (map (fun it => rebase (relpath host (dirpath_of it))) walked,
     flat_map (fun it =>
                 map (fun f => rebase (relpath host (dirpath_of it +++ "\" +++ f)))
                     (snd it)) walked).
Proof.
  unfold enumerate.
  set (step := fun (acc : list string * list string)
                   (item : string * list string * list string) => _).
  assert (G : forall l a b,
             fold_left step l (a, b)
             = (a ++ map (fun it => rebase (relpath host (dirpath_of it))) l,
                b ++ flat_map (fun it =>
                        map (fun f => rebase (relpath host (dirpath_of it +++ "\" +++ f)))
                            (snd it)) l)).
  { induction l as [|[[d dn] fn] l IH]; intros a b; simpl.
    - now rewrite !app_nil_r.
    - destruct fn as [|f fn]; cbn [is_nil negb].
      + rewrite IH. cbn [map app dirpath_of fst snd].
        now rewrite <- app_assoc.
      + rewrite fold_left_snoc_map, IH.
        cbn [dirpath_of fst snd]. now rewrite <- !app_assoc. }
  exact (G walked [] []).
Qed.

(* ------------------------------------------------------------------ *)
(** ** Trees *)

Lemma node_induction (P : node -> Prop) :
  (forall m d, P (File m d)) ->
  (forall es, Forall (fun e => P (snd e)) es -> P (Dir es)) ->
  forall n, P n.
Proof.
  intros HF HD.
  refine (fix F (n : node) : P n :=
            match n with
            | File m d => HF m d
            | Dir es =>
                HD es ((fix G (l : list (string * node)) : Forall (fun e => P (snd e)) l :=
                          match l with
                          | [] => Forall_nil _
                          | e :: l' => Forall_cons e (F (snd e)) (G l')
                          end) es)
            end).
Qed.

Lemma wf_node_dir (ok : string -> bool) (es : entries) :
  wf_node ok (Dir es) = true ->
  nodupb (map fst es) = true /\
  forall name child, In (name, child) es -> ok name = true /\ wf_node ok child = true.
Proof.
  cbn [wf_node]. intros H. apply andb_true_iff in H as [Hn Hf].
  split; [assumption |]. intros name child Hin.
  rewrite forallb_forall in Hf. specialize (Hf _ Hin). cbn [fst snd] in Hf.
  now apply andb_true_iff in Hf.
Qed.

Lemma wf_node_impl (ok ok' : string -> bool) (n : node) :
  (forall s, ok s = true -> ok' s = true) ->
  wf_node ok n = true -> wf_node ok' n = true.
Proof.
  intros Himp. induction n as [m d | es IH] using node_induction; [reflexivity |].
  cbn [wf_node]. intros H. apply andb_true_iff in H as [Hn Hf].
  rewrite Hn. cbn [andb]. rewrite forallb_forall in Hf |- *.
  intros e He. rewrite Forall_forall in IH.
  specialize (Hf _ He). apply andb_true_iff in Hf as [H1 H2].
  now rewrite (Himp _ H1), (IH _ He H2).
Qed.

Lemma dir_paths_ok (ok : string -> bool) (n : node) :
  wf_node ok n = true ->
  forall p, In p (dir_paths n) -> forallb ok p = true.
Proof.
  induction n as [m d | es IH] using node_induction; intros Hwf p Hp.
  - destruct Hp.
  - apply wf_node_dir in Hwf as [_ Hwf]. rewrite Forall_forall in IH.
    cbn [dir_paths] in Hp. destruct Hp as [<- | Hp]; [reflexivity |].
    apply in_flat_map in Hp as ([name child] & He & Hp).
    cbn [fst snd] in Hp. apply in_map_iff in Hp as (q & <- & Hq).
    destruct (Hwf _ _ He) as [Hok Hch].
    cbn [forallb]. rewrite Hok. exact (IH _ He Hch _ Hq).
Qed.

Lemma filenames_in (es : entries) (f : string) :
  In f (filenames es) -> exists m d, In (f, File m d) es.
Proof.
  unfold filenames. intros H. apply in_map_iff in H as ([name child] & <- & H).
  apply filter_In in H as [H Hk]. cbn [snd] in Hk.
  destruct child as [m d | sub]; [| discriminate]. exists m, d. exact H.
Qed.

Lemma file_paths_ok (ok : string -> bool) (n : node) :
  wf_node ok n = true ->
  forall p, In p (file_paths n) -> forallb ok p = true.
Proof.
  induction n as [m d | es IH] using node_induction; intros Hwf p Hp.
  - destruct Hp.
  - apply wf_node_dir in Hwf as [_ Hwf]. rewrite Forall_forall in IH.
    cbn [file_paths] in Hp. apply in_app_or in Hp as [Hp | Hp].
    + apply in_map_iff in Hp as (f & <- & Hf).
      apply filenames_in in Hf as (m & d & Hin).
      destruct (Hwf _ _ Hin) as [Hok _]. cbn [forallb]. now rewrite Hok.
    + apply in_flat_map in Hp as ([name child] & He & Hp).
      cbn [fst snd] in Hp. apply in_map_iff in Hp as (q & <- & Hq).
      destruct (Hwf _ _ He) as [Hok Hch].
      cbn [forallb]. rewrite Hok. exact (IH _ He Hch _ Hq).
Qed.

Lemma flat_map_flat_map {A B C : Type} (f : A -> list B) (g : B -> list C)
    (l : list A) :
  flat_map g (flat_map f l) = flat_map (fun x => flat_map g (f x)) l.
Proof.
  induction l as [|x l IH]; simpl; [reflexivity |].
  now rewrite flat_map_app, IH.
Qed.

Lemma flat_map_ext_in {A B : Type} (f g : A -> list B) (l : list A) :
  (forall x, In x l -> f x = g x) -> flat_map f l = flat_map g l.
Proof.
  induction l as [|x l IH]; intros H; simpl; [reflexivity |].
  rewrite (H x (or_introl eq_refl)), IH; [reflexivity |].
  intros y Hy. apply H. now right.
Qed.

Lemma map_flat_map {A B C : Type} (f : A -> list B) (g : B -> C) (l : list A) :
  map g (flat_map f l) = flat_map (fun x => map g (f x)) l.
Proof.
  induction l as [|x l IH]; simpl; [reflexivity |].
  now rewrite map_app, IH.
Qed.

(** [os.walk] visits the directories in the order of [dir_paths], and
    names each by the joined components. *)
Lemma walk_dirpaths (host : platform) (n : node) :
  wf_node (plain_name host) n = true ->
  forall base, base <> [] -> forallb (plain_name host) base = true ->
  map dirpath_of (walk host (join_with (sep host) base) n)
  = map (fun p => join_with (sep host) (base ++ p)) (dir_paths n).
Proof.
  induction n as [m d | es IH] using node_induction; intros Hwf base Hne Hb.
  - reflexivity.
  - apply wf_node_dir in Hwf as [_ Hwf]. rewrite Forall_forall in IH.
    cbn [walk dir_paths map dirpath_of fst]. rewrite app_nil_r. f_equal.
    rewrite !map_flat_map. apply flat_map_ext_in. intros [name child] He.
    cbn [fst snd]. destruct (Hwf _ _ He) as [Hok Hch].
    destruct child as [m d | sub]; [reflexivity |].
    rewrite path_join_plain by assumption.
    assert (Hb' : forallb (plain_name host) (base ++ [name]) = true).
    { apply forallb_app_true; [assumption |]. cbn [forallb]. now rewrite Hok. }
    assert (Hne' : base ++ [name] <> []) by (destruct base; discriminate).
    pose proof (IH _ He Hch (base ++ [name]) Hne' Hb') as IH'.
    cbn [snd] in IH'. rewrite IH'.
    rewrite map_map. apply map_ext. intros p. now rewrite <- app_assoc.
Qed.

(** The file paths the loop builds, before [relpath]: the directory
    path, a backslash, the file name. *)
Lemma walk_filepaths (n : node) :
  wf_node (plain_name Windows) n = true ->
  forall base, base <> [] -> forallb (plain_name Windows) base = true ->
  flat_map (fun it => map (fun f => dirpath_of it +++ "\" +++ f) (snd it))
    (walk Windows (join_with "\" base) n)
  = map (fun p => join_with "\" (base ++ p)) (file_paths n).
Proof.
  induction n as [m d | es IH] using node_induction; intros Hwf base Hne Hb.
  - reflexivity.
  - apply wf_node_dir in Hwf as [_ Hwf]. rewrite Forall_forall in IH.
    cbn [walk file_paths flat_map dirpath_of fst snd].
    rewrite map_app, map_map. f_equal.
    + apply map_ext. intros f. now rewrite join_with_snoc.
    + rewrite flat_map_flat_map, map_flat_map.
      apply flat_map_ext_in. intros [name child] He.
      cbn [fst snd]. destruct (Hwf _ _ He) as [Hok Hch].
      destruct child as [m d | sub]; [reflexivity |].
      change "\" with (sep Windows).
      rewrite path_join_plain by assumption.
      cbn [sep].
      assert (Hb' : forallb (plain_name Windows) (base ++ [name]) = true).
      { apply forallb_app_true; [assumption |]. cbn [forallb]. now rewrite Hok. }
      assert (Hne' : base ++ [name] <> []) by (destruct base; discriminate).
      pose proof (IH _ He Hch (base ++ [name]) Hne' Hb') as IH'.
      cbn [snd] in IH'. rewrite IH'.
      rewrite map_map. apply map_ext. intros p. now rewrite <- app_assoc.
Qed.

Lemma app_not_nil {A : Type} (l1 l2 : list A) : l1 <> [] -> l1 ++ l2 <> [].
Proof. destruct l1; [now intros [] | discriminate]. Qed.


Lemma enumerate_walk (rebase : string -> string) (n : node) (base : list string) :
  wf_node (plain_name Windows) n = true ->
  base <> [] -> forallb (plain_name Windows) base = true ->
  enumerate Windows rebase (walk Windows (join_with "\" base) n)
  = (map (fun p => rebase (join_with "\" (base ++ p))) (dir_paths n),
     map (fun p => rebase (join_with "\" (base ++ p))) (file_paths n)).
Proof.
  intros Hwf Hne Hb. rewrite enumerate_lists. f_equal.
  - rewrite <- (map_map dirpath_of (fun d => rebase (relpath Windows d))).
    pose proof (walk_dirpaths Windows n Hwf base Hne Hb) as Hd.
    cbn [sep] in Hd. rewrite Hd, map_map.
    apply map_ext_in. intros p Hp. f_equal.
    apply (relpath_join Windows); [now apply app_not_nil |].
    apply forallb_app_true; [assumption |].
    exact (dir_paths_ok _ _ Hwf _ Hp).
  - rewrite <- (map_map (fun p => join_with "\" (base ++ p)) rebase).
    rewrite <- (walk_filepaths n Hwf base Hne Hb).
    rewrite map_flat_map. apply flat_map_ext_in. intros it Hit.
    rewrite map_map. apply map_ext_in. intros f Hf.
    assert (Hin : In (dirpath_of it +++ "\" +++ f)
                    (flat_map (fun it => map (fun f => dirpath_of it +++ "\" +++ f) (snd it))
                       (walk Windows (join_with "\" base) n))).
    { apply in_flat_map. exists it. split; [assumption |].
      exact (in_map (fun f => dirpath_of it +++ "\" +++ f) _ _ Hf). }
    rewrite (walk_filepaths n Hwf base Hne Hb) in Hin.
    apply in_map_iff in Hin as (p & <- & Hp). f_equal.
    apply (relpath_join Windows); [now apply app_not_nil |].
    apply forallb_app_true; [assumption |].
    exact (file_paths_ok _ _ Hwf _ Hp).
Qed.

(* ------------------------------------------------------------------ *)
(** ** The ghost record of issued actions *)

Lemma emits_ret {A : Type} (P : action -> Prop) (a : A) : emits P (ret a).
Proof. intros w. exists []. now rewrite app_nil_r. Qed.

Lemma emits_bind {A B : Type} (P : action -> Prop) (m : M A) (k : A -> M B) :
  emits P m -> (forall a, emits P (k a)) -> emits P (bind m k).
Proof.
  intros Hm Hk w. unfold bind. destruct (Hm w) as (l1 & E1 & F1).
  destruct (m w) as [a w1 | e w1]; cbn [final_world] in E1.
  - destruct (Hk a w1) as (l2 & E2 & F2). exists (l1 ++ l2).
    rewrite E2, E1, app_assoc. split; [reflexivity | now apply Forall_app].
  - exists l1. now split.
Qed.

Lemma emits_try {A : Type} (P : action -> Prop) (body handler : M A) (e : exn) :
  emits P body -> emits P handler -> emits P (try_except body e handler).
Proof.
  intros Hb Hh w. unfold try_except. destruct (Hb w) as (l1 & E1 & F1).
  destruct (body w) as [a w1 | e' w1]; cbn [final_world] in E1.
  - exists l1. now split.
  - destruct (exn_eqb e' e).
    + destruct (Hh w1) as (l2 & E2 & F2). exists (l1 ++ l2).
      rewrite E2, E1, app_assoc. split; [reflexivity | now apply Forall_app].
    + exists l1. now split.
Qed.

Lemma emits_for_each {A : Type} (P : action -> Prop) (l : list A) (body : A -> M unit) :
  (forall x, In x l -> emits P (body x)) -> emits P (for_each l body).
Proof.
  induction l as [|x l IH]; intros H; cbn [for_each].
  - apply emits_ret.
  - apply emits_bind; [apply H; now left |].
    intros _. apply IH. intros y Hy. apply H. now right.
Qed.

Lemma emits_weaken {A : Type} (P Q : action -> Prop) (m : M A) :
  (forall a, P a -> Q a) -> emits P m -> emits Q m.
Proof.
  intros HPQ Hm w. destruct (Hm w) as (l & E & F). exists l.
  split; [assumption |]. revert F. apply Forall_impl. exact HPQ.
Qed.

Lemma silent_emits {A : Type} (P : action -> Prop) (m : M A) :
  silent m -> emits P m.
Proof. intros H w. exists []. now rewrite app_nil_r, H. Qed.

Lemma emits_issue (P : action -> Prop) (k : kind) (src rep : string) :
  P (mkAction k src rep) -> emits P (issue k src rep).
Proof. intros H w. exists [mkAction k src rep]. split; [reflexivity | now constructor]. Qed.

Section Preserved.

Context {X : Type} (proj : world -> X).
Hypothesis proj_cwd : forall w es, proj (set_cwd w es) = proj w.

Lemma preserves_commit (w : world) (p : list string) (new : option node) :
  proj (final_world (commit w p new)) = proj w.
Proof.
  unfold commit.
  destruct (write_at (Dir (cwd w)) p new) as [[m d | es]|];
    cbn [final_world]; auto.
Qed.

Lemma preserves_mkdir (host : platform) (p : list string) :
  preserves proj (mkdir_at host p).
Proof.
  intros w. unfold mkdir_at.
  destruct (stat (Dir (cwd w)) p); [reflexivity | apply preserves_commit | reflexivity].
Qed.

Lemma preserves_bind {A B : Type} (m : M A) (k : A -> M B) :
  preserves proj m -> (forall a, preserves proj (k a)) -> preserves proj (bind m k).
Proof.
  intros Hm Hk w. unfold bind. specialize (Hm w).
  destruct (m w) as [a w1 | e w1]; cbn [final_world] in Hm.
  - now rewrite Hk.
  - exact Hm.
Qed.

Lemma preserves_try {A : Type} (body handler : M A) (e : exn) :
  preserves proj body -> preserves proj handler ->
  preserves proj (try_except body e handler).
Proof.
  intros Hb Hh w. unfold try_except. specialize (Hb w).
  destruct (body w) as [a w1 | e' w1]; cbn [final_world] in Hb; [exact Hb |].
  destruct (exn_eqb e' e); [now rewrite Hh | exact Hb].
Qed.

Lemma preserves_makedirs_rev (host : platform) (rp : list string) :
  preserves proj (makedirs_rev host rp).
Proof.
  induction rp as [|c rhead IH]; cbn [makedirs_rev].
  - apply preserves_mkdir.
  - apply preserves_bind; [| intros _; apply preserves_mkdir].
    destruct rhead as [|d rhead]; [intros w; reflexivity |].
    intros w. destruct (path_exists (rev (d :: rhead)) w); [reflexivity |].
    apply preserves_try; [exact IH | intros w'; reflexivity].
Qed.

Lemma preserves_makedirs (host : platform) (name : string) :
  preserves proj (makedirs host name).
Proof. apply preserves_makedirs_rev. Qed.

Lemma preserves_rmtree (host : platform) (path : string) :
  preserves proj (rmtree host path).
Proof.
  intros w. unfold rmtree.
  destruct (stat (Dir (cwd w)) (resolve host path)) as [[m d | es] | |]; try reflexivity.
  destruct (resolve host path); [apply proj_cwd | apply preserves_commit].
Qed.

Lemma preserves_os_remove (host : platform) (path : string) :
  preserves proj (os_remove host path).
Proof.
  intros w. unfold os_remove.
  destruct (stat (Dir (cwd w)) (resolve host path)) as [[m d | es] | |]; try reflexivity.
  apply preserves_commit.
Qed.

Lemma preserves_copy2 (host : platform) (src dst : string) :
  preserves proj (copy2 host src dst).
Proof.
  intros w. unfold copy2.
  match goal with
  | |- context [stat _ (resolve host src)] =>
      destruct (stat (Dir (cwd w)) (resolve host src)) as [[m d | es] | |]; try reflexivity
  end.
  match goal with
  | |- context [if ?b then _ else _] => destruct b; [reflexivity |]
  end.
  match goal with
  | |- context [match ?s with Found _ => _ | Missing => _ | Blocked => _ end] =>
      destruct s as [[m' d' | es'] | |]; try reflexivity; apply preserves_commit
  end.
Qed.

Lemma preserves_getmtime (host : platform) (path : string) :
  preserves proj (getmtime host path).
Proof.
  intros w. unfold getmtime.
  destruct (stat (Dir (cwd w)) (resolve host path)) as [[m d | es] | |]; reflexivity.
Qed.

Lemma preserves_append_text (host : platform) (path text : string) (now : Z) :
  preserves proj (append_text host path text now).
Proof.
  intros w. unfold append_text. destruct (String.eqb path ""); [reflexivity |].
  destruct (stat (Dir (cwd w)) (resolve host path)) as [[m d | es] | |];
    try reflexivity; apply preserves_commit.
Qed.

Lemma preserves_fromtimestamp (host : platform) (t : Z) :
  preserves proj (fromtimestamp host t).
Proof.
  intros w. unfold fromtimestamp.
  destruct (_ || _)%bool; [reflexivity |].
  destruct host; repeat (destruct (_ || _)%bool; try reflexivity).
Qed.

Lemma preserves_time_sleep (secs : Z) : preserves proj (time_sleep secs).
Proof.
  intros w. unfold time_sleep.
  repeat match goal with
         | |- context [if ?b then _ else _] => destruct b; try reflexivity
         end.
Qed.

End Preserved.

Lemma issued_set_cwd (w : world) (es : entries) : issued (set_cwd w es) = issued w.
Proof. reflexivity. Qed.

Lemma log_set_cwd (w : world) (es : entries) : log (set_cwd w es) = log w.
Proof. reflexivity. Qed.

Lemma probed_set_cwd (w : world) (es : entries) : probed (set_cwd w es) = probed w.
Proof. reflexivity. Qed.

Lemma clock_set_cwd (w : world) (es : entries) : clock (set_cwd w es) = clock w.
Proof. reflexivity. Qed.

Lemma silent_makedirs (host : platform) (name : string) : silent (makedirs host name).
Proof. apply preserves_makedirs, issued_set_cwd. Qed.

Lemma silent_rmtree (host : platform) (path : string) : silent (rmtree host path).
Proof. apply preserves_rmtree, issued_set_cwd. Qed.

Lemma silent_os_remove (host : platform) (path : string) : silent (os_remove host path).
Proof. apply preserves_os_remove, issued_set_cwd. Qed.

Lemma silent_copy2 (host : platform) (src dst : string) : silent (copy2 host src dst).
Proof. apply preserves_copy2, issued_set_cwd. Qed.

Lemma silent_getmtime (host : platform) (path : string) : silent (getmtime host path).
Proof. apply preserves_getmtime. Qed.

(** What [log_action] does: the line is appended to the file, and when
    that has worked it is printed. *)
Lemma log_action_unfold (host : platform) (self : FileSync) (act src rep : string)
    (w : world) :
  log_action host self act src rep w
  = (append_text host (log_path self)
       (render (fst (clock w (List.length (log w)))) (entry act src rep)
        +++ linesep host)
       (snd (clock w (List.length (log w)))) ;;
     print (entry act src rep)) w.
Proof. unfold log_action. now destruct (clock w (List.length (log w))). Qed.

Lemma preserves_log_action {X : Type} (proj : world -> X) (host : platform)
    (self : FileSync) (act src rep : string) :
  (forall w es, proj (set_cwd w es) = proj w) ->
  (forall w l, proj (mkWorld (cwd w) (log w ++ [l]) (issued w) (probed w) (clock w))
               = proj w) ->
  preserves proj (log_action host self act src rep).
Proof.
  intros Hc Hp w. rewrite log_action_unfold. unfold bind.
  pose proof (preserves_append_text proj Hc host (log_path self)
                (render (fst (clock w (List.length (log w)))) (entry act src rep)
                 +++ linesep host)
                (snd (clock w (List.length (log w)))) w) as H.
  destruct (append_text _ _ _ _ w) as [[] w1 | e w1]; cbn [final_world] in H |- *.
  - unfold print. cbn [final_world]. now rewrite Hp.
  - exact H.
Qed.

Lemma silent_log_action (host : platform) (self : FileSync) (act src rep : string) :
  silent (log_action host self act src rep).
Proof. apply preserves_log_action; reflexivity. Qed.

Lemma emits_for_each_in {A : Type} (Q : A -> action -> Prop) (l : list A)
    (body : A -> M unit) :
  (forall x, emits (Q x) (body x)) ->
  emits (fun a => exists x, In x l /\ Q x a) (for_each l body).
Proof.
  intros H. apply emits_for_each. intros x Hx.
  apply (emits_weaken (Q x)); [| apply H].
  intros a Ha. now exists x.
Qed.

Lemma emits_delete_folder (host : platform) (self : FileSync) (folder : string) :
  emits (eq (mkAction DeleteDir folder (replace folder "source" "replica")))
    (delete_folder host self folder).
Proof.
  unfold delete_folder. destruct (negb (mem folder (src_folders self))).
  - apply emits_try.
    + apply emits_bind; [now apply emits_issue |].
      intros _. apply silent_emits, silent_rmtree.
    + apply silent_emits, silent_log_action.
  - apply emits_ret.
Qed.

Lemma emits_delete_file (host : platform) (self : FileSync) (file_path : string) :
  emits (eq (mkAction DeleteFile file_path (replace file_path "source" "replica")))
    (delete_file host self file_path).
Proof.
  unfold delete_file. destruct (negb (mem file_path (src_files self))).
  - apply emits_try.
    + apply emits_bind; [now apply emits_issue |].
      intros _. apply silent_emits, silent_os_remove.
    + apply silent_emits, silent_log_action.
  - apply emits_ret.
Qed.

Lemma emits_create_folder (host : platform) (self : FileSync) (folder : string) :
  emits (eq (mkAction CreateDir folder (replace folder "source" "replica")))
    (create_folder host self folder).
Proof.
  unfold create_folder. destruct (negb (mem folder (rep_folders self))).
  - apply emits_bind; [now apply emits_issue |]. intros _.
    apply emits_bind; [apply silent_emits, silent_makedirs |]. intros _.
    apply silent_emits, silent_log_action.
  - apply emits_ret.
Qed.

Lemma emits_create_file (host : platform) (self : FileSync) (file_path : string) :
  emits (eq (mkAction CreateFile file_path (replace file_path "source" "replica")))
    (create_file host self file_path).
Proof.
  unfold create_file. destruct (negb (mem file_path (rep_files self))).
  - apply emits_bind; [now apply emits_issue |]. intros _.
    apply emits_bind; [apply silent_emits, silent_copy2 |]. intros _.
    apply silent_emits, silent_log_action.
  - apply emits_ret.
Qed.

Lemma silent_get_file_time (host : platform) (path : string) :
  silent (_get_file_time host path).
Proof.
  unfold _get_file_time. apply preserves_bind; [intros w; reflexivity |].
  intros _. apply preserves_bind; [apply preserves_getmtime |].
  intros t. apply preserves_fromtimestamp.
Qed.

Lemma emits_modify_file (host : platform) (self : FileSync) (files : string * string) :
  emits (eq (mkAction ModifyFile (fst files) (replace (snd files) "source" "replica")))
    (modify_file host self files).
Proof.
  destruct files as [src_file rep_file]. unfold modify_file.
  apply emits_bind; [apply silent_emits, silent_get_file_time |]. intros t_src.
  apply emits_bind; [apply silent_emits, silent_get_file_time |]. intros t_rep.
  destruct (negb (t_src =? t_rep)%Z).
  - apply emits_bind; [now apply emits_issue |]. intros _.
    apply emits_bind; [apply silent_emits, silent_copy2 |]. intros _.
    apply silent_emits, silent_log_action.
  - apply emits_ret.
Qed.

Lemma in_phases_nil (Ps : list (action -> Prop)) : in_phases Ps [].
Proof.
  induction Ps as [|P Ps IH]; [reflexivity |].
  exists [], []. repeat split; [constructor | exact IH].
Qed.

Lemma in_phases_app (Ps Qs : list (action -> Prop)) (l1 l2 : list action) :
  in_phases Ps l1 -> in_phases Qs l2 -> in_phases (Ps ++ Qs) (l1 ++ l2).
Proof.
  revert l1. induction Ps as [|P Ps IH]; intros l1 H1 H2.
  - cbn in H1. now subst.
  - destruct H1 as (a & b & -> & Fa & Hb).
    exists a, (b ++ l2). rewrite app_assoc. repeat split; [assumption |].
    now apply IH.
Qed.

Lemma emits_phases_single {A : Type} (P : action -> Prop) (m : M A) :
  emits P m -> emits_phases [P] m.
Proof.
  intros H w. destruct (H w) as (l & E & F). exists l. split; [assumption |].
  exists l, []. now rewrite app_nil_r.
Qed.

Lemma emits_phases_bind {A B : Type} (Ps Qs : list (action -> Prop))
    (m : M A) (k : A -> M B) :
  emits_phases Ps m -> (forall a, emits_phases Qs (k a)) ->
  emits_phases (Ps ++ Qs) (bind m k).
Proof.
  intros Hm Hk w. unfold bind. destruct (Hm w) as (l1 & E1 & F1).
  destruct (m w) as [a w1 | e w1]; cbn [final_world] in E1.
  - destruct (Hk a w1) as (l2 & E2 & F2). exists (l1 ++ l2).
    rewrite E2, E1, app_assoc. split; [reflexivity | now apply in_phases_app].
  - exists l1. split; [assumption |].
    rewrite <- (app_nil_r l1). apply in_phases_app; [assumption | apply in_phases_nil].
Qed.

Lemma new_actions_spec {A : Type} (w : world) (o : outcome A) (l : list action) :
  issued (final_world o) = issued w ++ l -> new_actions w o = l.
Proof.
  intros E. unfold new_actions. rewrite E, skipn_app, skipn_all, Nat.sub_diag.
  reflexivity.
Qed.

Lemma nth_error_app_cases {A : Type} (l1 l2 : list A) (i : nat) (a : A) :
  nth_error (l1 ++ l2) i = Some a ->
  (i < List.length l1 /\ In a l1) \/ (List.length l1 <= i /\ In a l2).
Proof.
  intros H. destruct (Nat.lt_ge_cases i (List.length l1)) as [Hlt | Hge].
  - left. split; [assumption |]. rewrite nth_error_app1 in H by assumption.
    eapply nth_error_In; eassumption.
  - right. split; [assumption |]. rewrite nth_error_app2 in H by assumption.
    eapply nth_error_In; eassumption.
Qed.

(** The four phases of a cycle. *)
Lemma sync_files_phases (host : platform) (self : FileSync) :
  emits_phases
    [is_deletion; has_kind CreateDir; has_kind CreateFile; has_kind ModifyFile]
    (sync_files host self).
Proof.
  assert (H : forall s : FileSync,
             emits_phases
               ([is_deletion] ++ ([has_kind CreateDir] ++ [has_kind CreateFile])
                ++ [has_kind ModifyFile])
               (_check_item_deletion host s ;;
                _check_item_creation host s ;;
                _check_item_modification host s ;; ret s));
    [| intros w; exact (H (scanned host self w) w)].
  intros s.
  apply emits_phases_bind.
  - apply emits_phases_single. unfold _check_item_deletion.
    apply emits_bind; [| intros _]; apply emits_for_each; intros x _.
    + refine (emits_weaken _ _ _ _ (emits_delete_folder host s x)).
      intros a <-. now left.
    + refine (emits_weaken _ _ _ _ (emits_delete_file host s x)).
      intros a <-. now right.
  - intros _. apply emits_phases_bind.
    + unfold _check_item_creation. apply emits_phases_bind.
      * apply emits_phases_single, emits_for_each. intros x _.
        refine (emits_weaken _ _ _ _ (emits_create_folder host s x)).
        now intros a <-.
      * intros _. apply emits_phases_single, emits_for_each. intros x _.
        refine (emits_weaken _ _ _ _ (emits_create_file host s x)).
        now intros a <-.
    + intros _. apply emits_phases_single. apply emits_bind; [| intros _; apply emits_ret].
      unfold _check_item_modification. apply emits_for_each. intros x _.
      refine (emits_weaken _ _ _ _ (emits_modify_file host s x)).
      now intros a <-.
Qed.


(* ------------------------------------------------------------------ *)
(** ** Loops and exceptions *)

Lemma for_each_app {A : Type} (l1 l2 : list A) (body : A -> M unit) (w : world) :
  for_each (l1 ++ l2) body w = (for_each l1 body ;; for_each l2 body) w.
Proof.
  revert w. induction l1 as [|x l1 IH]; intros w; cbn [for_each app];
    unfold bind in *.
  - reflexivity.
  - destruct (body x w) as [[] w1 | e w1]; [apply IH | reflexivity].
Qed.

Lemma for_each_map {A B : Type} (f : A -> B) (l : list A) (body : B -> M unit)
    (w : world) :
  for_each (map f l) body w = for_each l (fun x => body (f x)) w.
Proof.
  revert w. induction l as [|x l IH]; intros w; cbn [for_each map].
  - reflexivity.
  - unfold bind. destruct (body (f x) w) as [[] w1 | e w1]; [apply IH | reflexivity].
Qed.

Lemma for_each_raise {A : Type} (pre post : list A) (x : A) (body : A -> M unit)
    (w w1 w2 : world) (e : exn) :
  for_each pre body w = Ok tt w1 ->
  body x w1 = Raise e w2 ->
  for_each (pre ++ x :: post) body w = Raise e w2.
Proof.
  intros Hpre Hx. rewrite for_each_app. unfold bind. rewrite Hpre.
  cbn [for_each]. unfold bind. now rewrite Hx.
Qed.

Lemma bind_raise_inv {A B : Type} (m : M A) (k : A -> M B) (w w2 : world) (e : exn) :
  bind m k w = Raise e w2 ->
  m w = Raise e w2 \/ exists a w1, m w = Ok a w1 /\ k a w1 = Raise e w2.
Proof.
  unfold bind. destruct (m w) as [a w1 | e1 w1]; intros H.
  - right. now exists a, w1.
  - left. injection H as -> ->. reflexivity.
Qed.

Lemma raise_keeps {X A : Type} (proj : world -> X) (m : M A) (w w2 : world) (e : exn) :
  preserves proj m -> m w = Raise e w2 -> proj w2 = proj w.
Proof. intros Hm H. specialize (Hm w). now rewrite H in Hm. Qed.

Lemma ok_keeps {X A : Type} (proj : world -> X) (m : M A) (w w2 : world) (a : A) :
  preserves proj m -> m w = Ok a w2 -> proj w2 = proj w.
Proof. intros Hm H. specialize (Hm w). now rewrite H in Hm. Qed.

(** The two passes after the deletions, as one loop over the items. *)
Lemma passes_as_items (host : platform) (s : FileSync) (w : world) :
  (_check_item_creation host s ;; _check_item_modification host s) w
  = for_each (cycle_items s) (run_item host s) w.
Proof.
  unfold cycle_items, _check_item_creation, _check_item_modification.
  rewrite for_each_app. unfold bind.
  rewrite for_each_map. cbn [run_item].
  change (fun x : string => create_folder host s x) with (create_folder host s).
  destruct (for_each (src_folders s) (create_folder host s) w) as [[] w1 | e w1];
    [| reflexivity].
  rewrite for_each_app. unfold bind. rewrite for_each_map. cbn [run_item].
  change (fun x : string => create_file host s x) with (create_file host s).
  destruct (for_each (src_files s) (create_file host s) w1) as [[] w2 | e w2];
    [| reflexivity].
  now rewrite for_each_map.
Qed.

Lemma commit_raise (w : world) (p : list string) (new : option node)
    (e : exn) (w2 : world) :
  commit w p new = Raise e w2 -> e = FileNotFoundError /\ w2 = w.
Proof.
  unfold commit. destruct (write_at (Dir (cwd w)) p new) as [[m d | es]|];
    intros H; try discriminate; injection H as <- <-; now split.
Qed.

(** A write to the log that fails leaves the world as it was. *)
Lemma append_text_raise (host : platform) (path text : string) (now : Z)
    (w w2 : world) (e : exn) :
  append_text host path text now w = Raise e w2 -> w2 = w.
Proof.
  unfold append_text. destruct (String.eqb path ""); [now intros [= _ <-] |].
  destruct (stat (Dir (cwd w)) (resolve host path)) as [[m d | es] | |]; intros H;
    try (now injection H as _ <-); now apply commit_raise in H.
Qed.

Lemma log_action_raise (host : platform) (self : FileSync) (act src rep : string)
    (w w2 : world) (e : exn) :
  log_action host self act src rep w = Raise e w2 -> w2 = w.
Proof.
  rewrite log_action_unfold. unfold bind.
  destruct (append_text _ _ _ _ w) as [[] w1 | e1 w1] eqn:E; [discriminate |].
  intros [= _ <-]. exact (append_text_raise _ _ _ _ _ _ _ E).
Qed.

Lemma preserves_get_file_time {X : Type} (proj : world -> X) (host : platform)
    (path : string) :
  (forall w p, proj (mkWorld (cwd w) (log w) (issued w) (probed w ++ [p]) (clock w))
               = proj w) ->
  preserves proj (_get_file_time host path).
Proof.
  intros Hp. unfold _get_file_time. apply preserves_bind; [intros w; apply Hp |].
  intros _. apply preserves_bind; [apply preserves_getmtime |].
  intros t. apply preserves_fromtimestamp.
Qed.

(** An item that raises has printed no line. *)
Lemma run_item_raise_log (host : platform) (s : FileSync) (it : item)
    (w w2 : world) (e : exn) :
  run_item host s it w = Raise e w2 -> log w2 = log w.
Proof.
  assert (G : forall (k : kind) (src rep : string) (call : M unit) (act : string)
                     (w0 : world),
             preserves log call ->
             (issue k src rep ;; call ;; log_action host s act src rep) w0
             = Raise e w2 ->
             log w2 = log w0).
  { intros k src rep call act w0 Hc H.
    apply bind_raise_inv in H as [H | (a & w1 & H1 & H)]; [discriminate |].
    injection H1 as _ <-.
    apply bind_raise_inv in H as [H | (a' & w1' & H1 & H)].
    - apply (raise_keeps log) in H; [exact H | exact Hc].
    - apply log_action_raise in H. subst w2.
      apply (ok_keeps log) in H1; [exact H1 | exact Hc]. }
  destruct it as [folder | file_path | [src_file rep_file]]; cbn [run_item].
  - unfold create_folder. destruct (negb (mem folder (rep_folders s))); [| discriminate].
    apply G. apply preserves_makedirs, log_set_cwd.
  - unfold create_file. destruct (negb (mem file_path (rep_files s))); [| discriminate].
    apply G. apply preserves_copy2, log_set_cwd.
  - unfold modify_file. intros H.
    assert (T : forall path, preserves log (_get_file_time host path)).
    { intros path. now apply preserves_get_file_time. }
    apply bind_raise_inv in H as [H | (t1 & w1 & H1 & H)].
    { apply (raise_keeps log) in H; [exact H | apply T]. }
    apply (ok_keeps log) in H1; [| apply T]. rewrite <- H1.
    apply bind_raise_inv in H as [H | (t2 & w1' & H2 & H)].
    { apply (raise_keeps log) in H; [exact H | apply T]. }
    apply (ok_keeps log) in H2; [| apply T]. rewrite <- H2.
    destruct (negb (t1 =? t2)%Z); [| discriminate].
    revert H. apply G. apply preserves_copy2, log_set_cwd.
Qed.

(* ------------------------------------------------------------------ *)
(** ** Looking paths up *)

Lemma mem_true_iff (x : string) (l : list string) : mem x l = true <-> In x l.
Proof.
  unfold mem. rewrite existsb_exists. split.
  - intros (y & Hy & E). apply String.eqb_eq in E. now subst.
  - intros H. exists x. split; [assumption | apply String.eqb_refl].
Qed.

Lemma mem_false_iff (x : string) (l : list string) : mem x l = false <-> ~ In x l.
Proof.
  rewrite <- mem_true_iff. destruct (mem x l); split; congruence.
Qed.

Lemma assoc_in (c : string) (es : entries) (x : node) :
  assoc c es = Some x -> In (c, x) es.
Proof.
  induction es as [|[n y] es IH]; cbn [assoc]; [discriminate |].
  destruct (String.eqb_spec n c) as [-> | Hne].
  - intros [= ->]. now left.
  - intros H. right. now apply IH.
Qed.


Lemma in_assoc (c : string) (es : entries) (x : node) :
  nodupb (map fst es) = true -> In (c, x) es -> assoc c es = Some x.
Proof.
  induction es as [|[n y] es IH]; cbn [assoc map fst nodupb]; [now intros _ [] |].
  intros H Hin. apply andb_true_iff in H as [Hn Hnd].
  apply negb_true_iff, mem_false_iff in Hn.
  destruct Hin as [[= -> ->] | Hin].
  - now rewrite String.eqb_refl.
  - destruct (String.eqb_spec n c) as [-> | Hne]; [| now apply IH].
    elim Hn. apply (in_map fst) in Hin. exact Hin.
Qed.

Lemma lookup_nil (n : node) : lookup n [] = Some n.
Proof. reflexivity. Qed.

Lemma lookup_cons (es : entries) (c : string) (q : list string) :
  lookup (Dir es) (c :: q)
  = match assoc c es with
    | Some child => lookup child q
    | None => None
    end.
Proof. unfold lookup. cbn [stat]. now destruct (assoc c es). Qed.

Lemma lookup_file (m : Z) (d : string) (c : string) (q : list string) :
  lookup (File m d) (c :: q) = None.
Proof. reflexivity. Qed.

Lemma lookup_app (n n' : node) (base p : list string) :
  lookup n base = Some n' -> lookup n (base ++ p) = lookup n' p.
Proof.
  revert n. induction base as [|c base IH]; intros n H.
  - now injection H as ->.
  - destruct n as [m d | es]; [discriminate |].
    cbn [app]. rewrite lookup_cons in H |- *.
    destruct (assoc c es) as [child|]; [now apply IH | discriminate].
Qed.

Lemma dir_paths_lookup (ok : string -> bool) (n : node) :
  wf_node ok n = true ->
  forall p, In p (dir_paths n) <-> exists sub, lookup n p = Some (Dir sub).
Proof.
  induction n as [m d | es IH] using node_induction; intros Hwf p.
  - cbn [dir_paths In]. split; [tauto |]. intros (sub & H).
    destruct p; discriminate.
  - apply wf_node_dir in Hwf as [Hnd Hwf]. rewrite Forall_forall in IH.
    cbn [dir_paths]. destruct p as [|c q].
    + split; [intros _; now exists es | intros _; now left].
    + rewrite lookup_cons. split.
      * intros [H | H]; [discriminate |].
        apply in_flat_map in H as ([name child] & He & H). cbn [fst snd] in H.
        apply in_map_iff in H as (q' & [= -> ->] & Hq).
        rewrite (in_assoc _ _ _ Hnd He).
        destruct (Hwf _ _ He) as [_ Hch].
        exact (proj1 (IH _ He Hch q) Hq).
      * intros (sub & H). right.
        destruct (assoc c es) as [child|] eqn:E; [| discriminate].
        apply assoc_in in E. apply in_flat_map. exists (c, child).
        split; [assumption |]. cbn [fst snd]. apply in_map.
        destruct (Hwf _ _ E) as [_ Hch].
        apply (IH _ E Hch q). now exists sub.
Qed.

Lemma in_filenames (es : entries) (f : string) (m : Z) (d : string) :
  In (f, File m d) es -> In f (filenames es).
Proof.
  intros H. unfold filenames. apply in_map_iff. exists (f, File m d).
  split; [reflexivity |]. apply filter_In. now split.
Qed.

Lemma file_paths_lookup (ok : string -> bool) (n : node) :
  wf_node ok n = true ->
  forall p, In p (file_paths n) <->
            p <> [] /\ exists m d, lookup n p = Some (File m d).
Proof.
  induction n as [m d | es IH] using node_induction; intros Hwf p.
  - cbn [file_paths In]. split; [tauto |]. intros (Hp & m' & d' & H).
    destruct p; [now elim Hp | discriminate].
  - apply wf_node_dir in Hwf as [Hnd Hwf]. rewrite Forall_forall in IH.
    cbn [file_paths]. rewrite in_app_iff. destruct p as [|c q].
    + split.
      * intros [H | H].
        -- apply in_map_iff in H as (f & H & _). discriminate.
        -- apply in_flat_map in H as ([name child] & _ & H).
           apply in_map_iff in H as (q' & H & _). discriminate.
      * intros (Hp & _). now elim Hp.
    + rewrite lookup_cons. split.
      * intros [H | H].
        -- apply in_map_iff in H as (f & [= -> <-] & Hf).
           apply filenames_in in Hf as (m & d & Hin).
           rewrite (in_assoc _ _ _ Hnd Hin). split; [discriminate |].
           now exists m, d.
        -- apply in_flat_map in H as ([name child] & He & H). cbn [fst snd] in H.
           apply in_map_iff in H as (q' & [= -> ->] & Hq).
           rewrite (in_assoc _ _ _ Hnd He). split; [discriminate |].
           destruct (Hwf _ _ He) as [_ Hch].
           exact (proj2 (proj1 (IH _ He Hch q) Hq)).
      * intros (_ & m & d & H).
        destruct (assoc c es) as [child|] eqn:E; [| discriminate].
        apply assoc_in in E. destruct q as [|c' q'].
        -- injection H as ->. left. apply in_map_iff. exists c.
           split; [reflexivity |]. exact (in_filenames _ _ _ _ E).
        -- right. apply in_flat_map. exists (c, child).
           split; [assumption |]. cbn [fst snd]. apply in_map.
           destruct (Hwf _ _ E) as [_ Hch].
           apply (IH _ E Hch (c' :: q')). split; [discriminate |]. now exists m, d.
Qed.

(* ------------------------------------------------------------------ *)
(** ** Changing the tree *)


Lemma assoc_put_same (c : string) (x : node) (es : entries) :
  assoc c (put c x es) = Some x.
Proof.
  induction es as [|[n y] es IH]; cbn [put assoc].
  - now rewrite String.eqb_refl.
  - destruct (String.eqb n c) eqn:E; cbn [assoc]; rewrite E; [reflexivity | exact IH].
Qed.


Lemma put_fresh (c : string) (x : node) (es : entries) :
  assoc c es = None -> put c x es = es ++ [(c, x)].
Proof.
  induction es as [|[n y] es IH]; cbn [put assoc app]; [reflexivity |].
  destruct (String.eqb n c); [discriminate |]. intros H. now rewrite IH.
Qed.




Lemma stat_app (n : node) (p q : list string) (x : node) :
  stat n p = Found x -> stat n (p ++ q) = stat x q.
Proof.
  revert n. induction p as [|c p IH]; intros n H.
  - now injection H as ->.
  - destruct n as [m d | es]; [discriminate |]. cbn [app stat] in H |- *.
    destruct (assoc c es) as [child|]; [now apply IH | discriminate].
Qed.


Lemma stat_graft (n : node) (p q : list string) (x y : node) :
  stat n p = Found y -> stat (graft n p x) (p ++ q) = stat x q.
Proof.
  revert n. induction p as [|c p IH]; intros n H.
  - reflexivity.
  - destruct n as [m d | es]; [discriminate |]. cbn [app stat graft] in H |- *.
    destruct (assoc c es) as [child|] eqn:E; [| discriminate].
    cbn [stat]. rewrite assoc_put_same. now apply IH.
Qed.





Lemma graft_is_dir (es : entries) (c : string) (p : list string) (x : node) :
  exists es', graft (Dir es) (c :: p) x = Dir es'.
Proof.
  cbn [graft]. destruct (assoc c es); eexists; reflexivity.
Qed.

Lemma write_at_graft (n : node) (p : list string) (c : string) (es : entries)
    (new : option node) :
  stat n p = Found (Dir es) ->
  write_at n (p ++ [c]) new
  = Some (graft n p (Dir (match new with
                          | Some x => put c x es
                          | None => del c es
                          end))).
Proof.
  revert n. induction p as [|d p IH]; intros n H.
  - injection H as ->. reflexivity.
  - destruct n as [m b | es0]; [discriminate |]. cbn [stat] in H.
    destruct (assoc d es0) as [child|] eqn:E; [| discriminate].
    cbn [app graft]. rewrite E.
    assert (W : write_at (Dir es0) (d :: p ++ [c]) new
                = match write_at child (p ++ [c]) new with
                  | Some child' => Some (Dir (put d child' es0))
                  | None => None
                  end).
    { cbn [write_at]. rewrite E. destruct (p ++ [c]) eqn:Ep; [| reflexivity].
      destruct p; discriminate. }
    rewrite W, (IH _ H). reflexivity.
Qed.

(** The world after a change below an existing directory. *)
Lemma commit_below (w : world) (p : list string) (c : string) (es : entries)
    (new : option node) :
  stat (Dir (cwd w)) p = Found (Dir es) ->
  exists w',
    commit w (p ++ [c]) new = Ok tt w' /\
    Dir (cwd w') = graft (Dir (cwd w)) p
                     (Dir (match new with
                           | Some x => put c x es
                           | None => del c es
                           end)) /\
    log w' = log w /\ issued w' = issued w.
Proof.
  intros H. unfold commit. rewrite (write_at_graft _ _ _ _ _ H).
  destruct p as [|d p].
  - injection H as <-. cbn [graft]. eexists. repeat split.
  - destruct (graft_is_dir (cwd w) d p
                (Dir match new with Some x => put c x es | None => del c es end))
      as (es' & E).
    rewrite E. eexists. repeat split.
Qed.

(* ------------------------------------------------------------------ *)
(** ** [os.makedirs] and [shutil.copy2] *)

Lemma stat_missing_below (n : node) (pre : list string) (es : entries)
    (h : string) (t : list string) :
  stat n pre = Found (Dir es) -> assoc h es = None ->
  stat n (pre ++ h :: t) = Missing.
Proof.
  intros H Hh. rewrite (stat_app _ _ _ _ H). cbn [stat]. now rewrite Hh.
Qed.



Lemma mkdir_at_new (host : platform) (w : world) (q : list string) (c : string)
    (es : entries) :
  stat (Dir (cwd w)) q = Found (Dir es) -> assoc c es = None ->
  exists w',
    mkdir_at host (q ++ [c]) w = Ok tt w' /\
    Dir (cwd w') = graft (Dir (cwd w)) q (Dir (es ++ [(c, Dir [])])) /\
    log w' = log w /\ issued w' = issued w.
Proof.
  intros H Hc. unfold mkdir_at.
  rewrite (stat_missing_below _ _ _ _ [] H Hc).
  destruct (commit_below w q c es (Some (Dir [])) H) as (w' & E & Hcwd & Hl & Hi).
  exists w'. rewrite (put_fresh _ _ _ Hc) in Hcwd. now repeat split.
Qed.







(* ------------------------------------------------------------------ *)
(** ** A first cycle, step by step *)










(* ------------------------------------------------------------------ *)
(** ** The log file, and the tree seen without it *)




Lemma fromtimestamp_ok (host : platform) (t : Z) (w : world) :
  convertible host t = true -> fromtimestamp host t w = Ok t w.
Proof.
  unfold convertible, fromtimestamp, second. intros H.
  change (2 ^ 63)%Z with 9223372036854775808%Z.
  destruct host; apply andb_true_iff in H as [H1 H2];
    apply Z.leb_le in H1; apply Z.ltb_lt in H2;
    repeat match goal with
           | |- context [(?a <? ?b)%Z] => destruct (Z.ltb_spec a b); [lia |]
           | |- context [(?a <=? ?b)%Z] => destruct (Z.leb_spec a b); [lia |]
           end; reflexivity.
Qed.

Lemma timely_stat (host : platform) (n : node) (p : list string) (m : Z) (d : string) :
  timely host n = true -> stat n p = Found (File m d) -> convertible host m = true.
Proof.
  revert p. induction n as [m' d' | es IH] using node_induction; intros p Ht H.
  - destruct p; [| discriminate]. injection H as -> ->. exact Ht.
  - destruct p as [|c q]; [discriminate |]. cbn [stat] in H.
    destruct (assoc c es) as [child|] eqn:E; [| discriminate].
    apply assoc_in in E. rewrite Forall_forall in IH.
    apply (IH _ E q); [| exact H].
    cbn [timely] in Ht. rewrite forallb_forall in Ht. exact (Ht _ E).
Qed.









(** The timestamp of a file whose time converts. *)
Lemma get_file_time_file (host : platform) (path : string) (w : world)
    (m : Z) (d : string) :
  stat (Dir (cwd w)) (resolve host path) = Found (File m d) ->
  convertible host m = true ->
  _get_file_time host path w
  = Ok m (mkWorld (cwd w) (log w) (issued w) (probed w ++ [path]) (clock w)).
Proof.
  intros H Hc. unfold _get_file_time, bind, probe, getmtime. cbn [cwd].
  rewrite H. now apply fromtimestamp_ok.
Qed.


Lemma sync_name_own (name : string) : sync_name name = true -> own_name name = true.
Proof.
  unfold sync_name, own_name, neutral_name. intros H.
  apply andb_true_iff in H as [H1 H2]. apply andb_true_iff in H2 as [H2 _].
  now rewrite H1, H2.
Qed.

Lemma sync_names_own (comps : list string) :
  forallb sync_name comps = true -> forallb own_name comps = true.
Proof.
  rewrite !forallb_forall. intros H x Hx. apply sync_name_own. now apply H.
Qed.




Lemma sync_names_split (comps : list string) :
  forallb sync_name comps = true ->
  forallb (plain_name Windows) comps = true /\ forallb neutral_name comps = true.
Proof.
  induction comps as [|c cs IH]; cbn [forallb]; [auto |].
  intros H. apply andb_true_iff in H as [Hc Hcs].
  unfold sync_name in Hc. apply andb_true_iff in Hc as [H1 H2].
  destruct (IH Hcs) as [I1 I2]. now rewrite H1, H2, I1, I2.
Qed.

Lemma resolve_source_path (comps : list string) :
  forallb sync_name comps = true ->
  resolve Windows (source_path comps) = "source" :: comps.
Proof.
  intros H. apply sync_names_split in H as [H _].
  apply (resolve_join Windows ("source" :: comps)); [discriminate |].
  cbn [forallb]. now rewrite H.
Qed.

Lemma resolve_replica_path (comps : list string) :
  forallb sync_name comps = true ->
  resolve Windows (replica_path comps) = "replica" :: comps.
Proof.
  intros H. apply sync_names_split in H as [H _].
  apply (resolve_join Windows ("replica" :: comps)); [discriminate |].
  cbn [forallb]. now rewrite H.
Qed.

Lemma to_replica_path (comps : list string) :
  forallb sync_name comps = true ->
  replace (source_path comps) "source" "replica" = replica_path comps.
Proof.
  intros H. apply sync_names_split in H as [_ H]. now apply to_replica_join.
Qed.


Lemma for_each_cons_ok {A : Type} (x : A) (l : list A) (body : A -> M unit)
    (w w1 : world) :
  body x w = Ok tt w1 -> for_each (x :: l) body w = for_each l body w1.
Proof. intros H. cbn [for_each]. unfold bind. now rewrite H. Qed.











Section FirstCycle.

Variable self : FileSync.
Variables (l0 : string) (L' : list string).
Hypothesis rep_folders_fresh :
  forall p, p <> [] -> mem (source_path p) (rep_folders self) = false.
Hypothesis rep_files_none : rep_files self = [].
Hypothesis log_named : log_path self <> "".
Hypothesis log_resolved : resolve Windows (log_path self) = l0 :: L'.
Hypothesis src_apart : "source" <> l0.
Hypothesis rep_apart : "replica" <> l0.








End FirstCycle.

Lemma scanned_source (self : FileSync) (w : world) (tree : entries) :
  src_path self = "source" ->
  assoc "source" (cwd w) = Some (Dir tree) ->
  wf_node own_name (Dir tree) = true ->
  src_folders (scanned Windows self w) = map source_path (dir_paths (Dir tree)) /\
  src_files (scanned Windows self w) = map source_path (file_paths (Dir tree)).
Proof.
  intros Hsp Hs Hwf.
  assert (Hplain : wf_node (plain_name Windows) (Dir tree) = true).
  { revert Hwf. apply wf_node_impl. intros x H. unfold own_name in H.
    now apply andb_true_iff in H. }
  unfold scanned. rewrite Hsp. cbn [src_folders src_files].
  unfold os_walk. cbn [String.eqb]. change (resolve Windows "source") with ["source"].
  rewrite lookup_cons, Hs, lookup_nil.
  change (walk Windows "source" (Dir tree))
    with (walk Windows (join_with "\" ["source"]) (Dir tree)).
  rewrite (enumerate_walk (fun p => p) (Dir tree) ["source"] Hplain)
    by (discriminate || reflexivity).
  split; reflexivity.
Qed.






(* ------------------------------------------------------------------ *)
(** ** A cycle over a replica that lists what the source lists *)



Lemma for_each_skip {A : Type} (l : list A) (body : A -> M unit) (w : world) :
  (forall x, In x l -> body x w = Ok tt w) -> for_each l body w = Ok tt w.
Proof.
  induction l as [|x l IH]; intros H; [reflexivity |].
  rewrite (for_each_cons_ok _ _ _ _ _ (H x (or_introl eq_refl))).
  apply IH. intros y Hy. apply H. now right.
Qed.

Lemma combine_same {A : Type} (l : list A) : combine l l = map (fun x => (x, x)) l.
Proof. induction l as [|x l IH]; cbn; [reflexivity | now rewrite IH]. Qed.

Lemma scanned_replica (self : FileSync) (w : world) (rtree : entries) :
  rep_path self = "replica" ->
  assoc "replica" (cwd w) = Some (Dir rtree) ->
  wf_node sync_name (Dir rtree) = true ->
  rep_folders (scanned Windows self w) = map source_path (dir_paths (Dir rtree)) /\
  rep_files (scanned Windows self w) = map source_path (file_paths (Dir rtree)).
Proof.
  intros Hrp Hr Hwf.
  assert (Hplain : wf_node (plain_name Windows) (Dir rtree) = true).
  { revert Hwf. apply wf_node_impl. intros x H. unfold sync_name in H.
    now apply andb_true_iff in H. }
  unfold scanned. rewrite Hrp. cbn [rep_folders rep_files].
  unfold os_walk. cbn [String.eqb]. change (resolve Windows "replica") with ["replica"].
  rewrite lookup_cons, Hr, lookup_nil.
  change (walk Windows "replica" (Dir rtree))
    with (walk Windows (join_with "\" ["replica"]) (Dir rtree)).
  rewrite (enumerate_walk (fun p => replace p "replica" "source") (Dir rtree)
             ["replica"] Hplain)
    by (discriminate || reflexivity).
  cbn [fst snd app]. split; apply map_ext_in; intros p Hp; apply to_source_join.
  - exact (proj2 (sync_names_split _ (dir_paths_ok _ _ Hwf _ Hp))).
  - exact (proj2 (sync_names_split _ (file_paths_ok _ _ Hwf _ Hp))).
Qed.





(* ------------------------------------------------------------------ *)
(** ** The timestamps a run asks for *)



Lemma asks_try {A : Type} (P : string -> Prop) (body handler : M A) (e : exn) :
  asks P body -> asks P handler -> asks P (try_except body e handler).
Proof.
  intros Hb Hh w. unfold try_except. destruct (Hb w) as (l1 & E1 & F1).
  destruct (body w) as [a w1 | e' w1]; cbn [final_world] in E1.
  - exists l1. now split.
  - destruct (exn_eqb e' e).
    + destruct (Hh w1) as (l2 & E2 & F2). exists (l1 ++ l2).
      rewrite E2, E1, app_assoc. split; [reflexivity | now apply Forall_app].
    + exists l1. now split.
Qed.





Lemma mute_log_action (host : platform) (self : FileSync) (act src rep : string) :
  preserves probed (log_action host self act src rep).
Proof. apply preserves_log_action; reflexivity. Qed.

Lemma mute_guarded_call (host : platform) (self : FileSync) (k : kind)
    (src rep act : string) (call : M unit) :
  preserves probed call ->
  preserves probed (issue k src rep ;; call ;; log_action host self act src rep).
Proof.
  intros H. apply preserves_bind; [intros w; reflexivity |]. intros _.
  apply preserves_bind; [exact H |]. intros _. apply mute_log_action.
Qed.

Lemma new_probes_spec {A : Type} (w : world) (o : outcome A) (l : list string) :
  probed (final_world o) = probed w ++ l -> new_probes w o = l.
Proof.
  intros E. unfold new_probes. rewrite E, skipn_app, skipn_all, Nat.sub_diag.
  reflexivity.
Qed.


(** Every replica path of a cycle comes from [str.replace]. *)
Lemma passes_rebase_by_replace (host : platform) (s : FileSync) :
  emits (rebased_by_replace s)
    (_check_item_deletion host s ;;
     _check_item_creation host s ;;
     _check_item_modification host s ;; ret s).
Proof.
  apply emits_bind; [| intros _; apply emits_bind; [| intros _; apply emits_bind]].
  - unfold _check_item_deletion.
    apply emits_bind; [| intros _]; apply emits_for_each; intros x Hx.
    + refine (emits_weaken _ _ _ _ (emits_delete_folder host s x)).
      now intros a <-.
    + refine (emits_weaken _ _ _ _ (emits_delete_file host s x)).
      now intros a <-.
  - unfold _check_item_creation.
    apply emits_bind; [| intros _]; apply emits_for_each; intros x Hx.
    + refine (emits_weaken _ _ _ _ (emits_create_folder host s x)).
      now intros a <-.
    + refine (emits_weaken _ _ _ _ (emits_create_file host s x)).
      now intros a <-.
  - unfold _check_item_modification. apply emits_for_each. intros [sf rf] Hx.
    refine (emits_weaken _ _ _ _ (emits_modify_file host s (sf, rf))).
    intros a <-. exists rf. split; [exact (in_combine_r _ _ _ _ Hx) | reflexivity].
  - intros _. apply emits_ret.
Qed.

(* ------------------------------------------------------------------ *)
(** ** A call that fails *)

Lemma write_at_below (es : entries) (c c2 : string) (p : list string)
    (new : option node) :
  write_at (Dir es) (c :: c2 :: p) new
  = match assoc c es with
    | Some child =>
        match write_at child (c2 :: p) new with
        | Some child' => Some (Dir (put c child' es))
        | None => None
        end
    | None => None
    end.
Proof. reflexivity. Qed.

Lemma write_at_stat (n n' : node) (p : list string) (x : node) :
  write_at n p (Some x) = Some n' -> stat n' p = Found x.
Proof.
  revert n n'. induction p as [|c p IH]; intros n n' H; [discriminate |].
  destruct n as [m d | es]; [destruct p; discriminate |].
  destruct p as [|c2 p].
  - cbn [write_at] in H. injection H as <-. cbn [stat]. now rewrite assoc_put_same.
  - rewrite write_at_below in H. destruct (assoc c es) as [child|]; [| discriminate].
    destruct (write_at child (c2 :: p) (Some x)) as [child'|] eqn:E; [| discriminate].
    injection H as <-. cbn [stat]. rewrite assoc_put_same. exact (IH _ _ E).
Qed.

Lemma commit_stat (w w' : world) (p : list string) (x : node) :
  commit w p (Some x) = Ok tt w' -> stat (Dir (cwd w')) p = Found x.
Proof.
  unfold commit.
  destruct (write_at (Dir (cwd w)) p (Some x)) as [[m d | es]|] eqn:E; try discriminate.
  intros [= <-]. cbn [set_cwd cwd]. exact (write_at_stat _ _ _ _ E).
Qed.

Lemma mkdir_at_outcome (host : platform) (p : list string) (w : world) :
  match mkdir_at host p w with
  | Ok _ w' => stat (Dir (cwd w')) p = Found (Dir [])
  | Raise _ w' => w' = w
  end.
Proof.
  unfold mkdir_at. destruct (stat (Dir (cwd w)) p) as [x | |]; try reflexivity.
  destruct (commit w p (Some (Dir []))) as [[] w' | e w'] eqn:E.
  - exact (commit_stat _ _ _ _ E).
  - now apply commit_raise in E.
Qed.

(** [makedirs] either makes the directory, or fails and leaves the tree
    as it was. *)
Lemma makedirs_rev_outcome (host : platform) (rp : list string) :
  forall w,
    match makedirs_rev host rp w with
    | Ok _ w' => stat (Dir (cwd w')) (rev rp) = Found (Dir [])
    | Raise _ w' => cwd w' = cwd w
    end.
Proof.
  induction rp as [|c rhead IH]; intros w; cbn [makedirs_rev].
  - pose proof (mkdir_at_outcome host [] w) as H.
    destruct (mkdir_at host [] w); [exact H | now subst].
  - unfold bind. destruct rhead as [|d rhead'].
    + unfold ret. pose proof (mkdir_at_outcome host (rev [c]) w) as H.
      destruct (mkdir_at host (rev [c]) w); [exact H | now subst].
    + destruct (path_exists (rev (d :: rhead')) w).
      * pose proof (mkdir_at_outcome host (rev (c :: d :: rhead')) w) as H.
        destruct (mkdir_at host (rev (c :: d :: rhead')) w); [exact H | now subst].
      * unfold try_except. specialize (IH w).
        destruct (makedirs_rev host (d :: rhead') w) as [[] w1 | e1 w1].
        -- change (rev (c :: d :: rhead')) with (rev (d :: rhead') ++ [c]).
           destruct (mkdir_at_new host w1 (rev (d :: rhead')) c [] IH eq_refl)
             as (w2 & E2 & C2 & _).
           rewrite E2, C2, (stat_graft _ _ _ _ _ IH). cbn [app stat assoc].
           now rewrite String.eqb_refl.
        -- destruct (exn_eqb e1 FileExistsError); [| exact IH].
           unfold ret.
           pose proof (mkdir_at_outcome host (rev (c :: d :: rhead')) w1) as H.
           destruct (mkdir_at host (rev (c :: d :: rhead')) w1); [exact H |].
           subst. exact IH.
Qed.

Lemma copy2_raise (host : platform) (src dst : string) (w w2 : world) (e : exn) :
  copy2 host src dst w = Raise e w2 -> w2 = w.
Proof.
  unfold copy2.
  match goal with
  | |- context [stat _ (resolve host src)] =>
      destruct (stat (Dir (cwd w)) (resolve host src)) as [[m d | es] | |];
        try (now intros [= _ <-])
  end.
  match goal with
  | |- context [if ?b then _ else _] => destruct b; [now intros [= _ <-] |]
  end.
  match goal with
  | |- context [match ?s with Found _ => _ | Missing => _ | Blocked => _ end] =>
      destruct s as [[m' d' | es'] | |]; try (now intros [= _ <-]);
        intros H; now apply commit_raise in H
  end.
Qed.

Lemma get_file_time_cwd (host : platform) (path : string) :
  preserves cwd (_get_file_time host path).
Proof. now apply preserves_get_file_time. Qed.

(** A failing call makes its item raise, and leaves the tree as it was. *)
Lemma call_fails_item (host : platform) (s : FileSync) (it : item) (w w' : world)
    (e : exn) :
  call_fails host s it w e w' ->
  run_item host s it w = Raise e w' /\ cwd w' = cwd w.
Proof.
  intros H. destruct H as [folder w e w' Hg H | file_path w e w' Hg H
                          | sf rf w e w' H | sf rf w t w1 e w' H1 H
                          | sf rf w t1 w1 t2 w2 e w' H1 H2 Hne H]; cbn [run_item].
  - unfold create_folder. rewrite Hg. cbn [negb].
    unfold bind, issue in H |- *. rewrite H. split; [reflexivity |].
    unfold makedirs in H.
    match type of H with
    | makedirs_rev _ ?rp ?w0 = _ =>
        pose proof (makedirs_rev_outcome host rp w0) as G; rewrite H in G; exact G
    end.
  - unfold create_file. rewrite Hg. cbn [negb].
    unfold bind, issue in H |- *. rewrite H. split; [reflexivity |].
    now apply copy2_raise in H; subst.
  - unfold modify_file, bind. rewrite H. split; [reflexivity |].
    exact (raise_keeps cwd _ _ _ _ (get_file_time_cwd host sf) H).
  - unfold modify_file, bind. rewrite H1, H. split; [reflexivity |].
    rewrite (raise_keeps cwd _ _ _ _ (get_file_time_cwd host _) H).
    exact (ok_keeps cwd _ _ _ _ (get_file_time_cwd host sf) H1).
  - unfold modify_file, bind. rewrite H1, H2.
    rewrite (proj2 (Z.eqb_neq _ _) Hne). cbn [negb].
    unfold bind, issue in H |- *. rewrite H. split; [reflexivity |].
    apply copy2_raise in H. subst w'. cbn [cwd].
    rewrite (ok_keeps cwd _ _ _ _ (get_file_time_cwd host _) H2).
    exact (ok_keeps cwd _ _ _ _ (get_file_time_cwd host sf) H1).
Qed.

(* ================================================================== *)
(** * The properties of the specification *)

(** C9.  Within every cycle the actions are issued in the order: all
    deletions (directories and files), then all directory creations, then
    all file creations, then all modifications.  In particular every
    CreateDir action of the cycle comes before every CreateFile action, so
    no file is created before the directory creations are done. *)
Theorem sync_files_action_order (host : platform) (self : FileSync) (w : world) :
  exists dels mkdirs copies mods : list action,
    new_actions w (sync_files host self w) = dels ++ mkdirs ++ copies ++ mods /\
    Forall is_deletion dels /\
    Forall (has_kind CreateDir) mkdirs /\
    Forall (has_kind CreateFile) copies /\
    Forall (has_kind ModifyFile) mods /\
    (forall i j a b,
        nth_error (new_actions w (sync_files host self w)) i = Some a ->
        nth_error (new_actions w (sync_files host self w)) j = Some b ->
        has_kind CreateFile a -> has_kind CreateDir b -> j < i).
Proof.
  destruct (sync_files_phases host self w) as (l & E & H).
  rewrite (new_actions_spec _ _ _ E).
  destruct H as (dels & r1 & -> & Fd & H).
  destruct H as (mkdirs & r2 & -> & Fm & H).
  destruct H as (copies & r3 & -> & Fc & H).
  destruct H as (mods & r4 & -> & Fo & H).
  cbn [in_phases] in H. subst r4. clear E. rewrite app_nil_r.
  exists dels, mkdirs, copies, mods. repeat split; try assumption.
  intros i j a b Ha Hb Ka Kb.
  rewrite Forall_forall in Fd, Fm, Fc, Fo. unfold has_kind, is_deletion in *.
  assert (Hi : List.length dels + List.length mkdirs <= i).
  { destruct (Nat.lt_ge_cases i (List.length dels + List.length mkdirs)) as [Hlt | Hge];
      [| assumption].
    exfalso. rewrite app_assoc in Ha.
    rewrite nth_error_app1 in Ha by (rewrite length_app; exact Hlt).
    apply nth_error_In in Ha. apply in_app_or in Ha as [Ha | Ha].
    - apply Fd in Ha. destruct Ha; congruence.
    - apply Fm in Ha. congruence. }
  assert (Hj : j < List.length dels + List.length mkdirs).
  { destruct (Nat.lt_ge_cases j (List.length dels + List.length mkdirs)) as [Hlt | Hge];
      [assumption |].
    exfalso. rewrite app_assoc in Hb.
    rewrite nth_error_app2 in Hb by (rewrite length_app; exact Hge).
    apply nth_error_In in Hb. apply in_app_or in Hb as [Hb | Hb].
    - apply Fc in Hb. congruence.
    - apply Fo in Hb. congruence. }
  lia.
Qed.


(** C8 (as amended).  A failure on an individual item is not caught: when
    the [makedirs] or [copy2] call of an item, or one of its two timestamp
    readings, raises, the cycle ends there with that exception.  The tree
    is as the items before it have left it, the items after it are not
    processed, no line is printed or written to the log for the failed
    item, and the scheduler turn ends with the same exception, before its
    completion line. *)
Theorem item_failure_aborts_cycle (host : platform) (self : FileSync) (w w1 w2 : world)
    (pre post : list item) (it : item) (e : exn) :
  cycle_items (scanned host self w) = pre ++ it :: post ->
  (_check_item_deletion host (scanned host self w) ;;
   for_each pre (run_item host (scanned host self w))) w = Ok tt w1 ->
  call_fails host (scanned host self w) it w1 e w2 ->
  sync_files host self w = Raise e w2 /\
  scheduler_turn host self w = Raise e w2 /\
  cwd w2 = cwd w1 /\
  log w2 = log w1.
Proof.
  intros Hitems Hpre Hcall.
  destruct (call_fails_item host _ it w1 w2 e Hcall) as (Hit & Hcwd).
  assert (Hs : sync_files host self w = Raise e w2).
  { unfold sync_files. set (s := scanned host self w) in *.
    unfold bind in Hpre |- *.
    destruct (_check_item_deletion host s w) as [[] w0 | e0 w0]; [| discriminate].
    pose proof (passes_as_items host s w0) as Hp.
    rewrite Hitems, (for_each_raise pre post it _ w0 w1 w2 e Hpre Hit) in Hp.
    unfold bind in Hp.
    destruct (_check_item_creation host s w0) as [[] w3 | e3 w3].
    - now rewrite Hp.
    - injection Hp as -> ->. reflexivity. }
  split; [exact Hs |]. split; [| split].
  - unfold scheduler_turn, bind. now rewrite Hs.
  - exact Hcwd.
  - exact (run_item_raise_log host _ it w1 w2 e Hit).
Qed.

(** Three failures: on Windows the replica path is taken by a regular
    file and [makedirs] fails; on a Posix host the recorded path of a
    source file, joined with a backslash, names nothing and [copy2] fails;
    on Windows the file paired with [a.txt] by position was removed by the
    deletion pass and the reading of its timestamp fails. *)
Lemma item_failure_aborts_cycle_witness :
  (let w := fresh_world occupied_tree in
   let w2 := final_world (sync_files Windows sample_sync w) in
   sync_files Windows sample_sync w = Raise FileExistsError w2 /\
   scheduler_turn Windows sample_sync w = Raise FileExistsError w2 /\
   cwd w2 = cwd w /\
   log w2 = log w) /\
  (let w := fresh_world small_tree in
   let s := scanned Posix sample_sync w in
   let w1 := final_world
               ((_check_item_deletion Posix s ;;
                 for_each [FolderItem "source"; FolderItem "source/d"]
                   (run_item Posix s)) w) in
   let w2 := final_world (sync_files Posix sample_sync w) in
   sync_files Posix sample_sync w = Raise FileNotFoundError w2 /\
   scheduler_turn Posix sample_sync w = Raise FileNotFoundError w2 /\
   cwd w2 = cwd w1 /\
   log w2 = log w1) /\
  (let w := fresh_world ousted_tree in
   let s := scanned Windows sample_sync w in
   let w1 := final_world
               ((_check_item_deletion Windows s ;;
                 for_each [FolderItem "source"; FileItem "source\a.txt"]
                   (run_item Windows s)) w) in
   let w2 := final_world (sync_files Windows sample_sync w) in
   sync_files Windows sample_sync w = Raise FileNotFoundError w2 /\
   scheduler_turn Windows sample_sync w = Raise FileNotFoundError w2 /\
   cwd w2 = cwd w1 /\
   log w2 = log w1).
Proof.
  split; [| split]; cbv zeta.
  - apply (item_failure_aborts_cycle Windows sample_sync
             (fresh_world occupied_tree) (fresh_world occupied_tree) _
             [] [FileItem "source\a.txt"] (FolderItem "source") FileExistsError);
      [reflexivity | reflexivity |].
    apply makedirs_fails; reflexivity.
  - apply (item_failure_aborts_cycle Posix sample_sync
             (fresh_world small_tree) _ _
             [FolderItem "source"; FolderItem "source/d"] []
             (FileItem "source\a.txt") FileNotFoundError);
      [reflexivity | reflexivity |].
    apply copy_fails; reflexivity.
  - apply (item_failure_aborts_cycle Windows sample_sync
             (fresh_world ousted_tree) _ _
             [FolderItem "source"; FileItem "source\a.txt"] []
             (PairItem ("source\a.txt", "source\old.txt")) FileNotFoundError);
      [reflexivity | reflexivity |].
    eapply replica_time_fails; reflexivity.
Defined.

(** C8, as stated, fails: with the replica path taken by a regular file,
    [makedirs] fails on the first item; the cycle is aborted with
    [FileExistsError], no line is logged for the failure, and the pending
    copy of [a.txt] is never attempted. *)
Lemma mkdir_failure_is_fatal :
  exists w',
    sync_files Windows sample_sync (fresh_world occupied_tree)
    = Raise FileExistsError w' /\
    log w' = [] /\
    cwd w' = occupied_tree /\
    ~ In "source\a.txt" (map sourcePath (issued w')).
Proof.
  eexists. split; [reflexivity |]. cbn.
  repeat split. intros [H | []]. discriminate.
Qed.

(** C6 (as amended).  A root that does not exist, or is not a directory,
    raises nothing at enumeration time: [os.walk] yields no item for it and
    both lists of that side are empty.  With the source root missing the
    cycle is then the deletion pass alone, run against an empty source
    enumeration, so that everything enumerated in the replica is to be
    removed, the replica root included; with the replica root missing the
    deletion pass has nothing to do and the cycle is the creation pass
    alone.  (The roots are given by plain components from the working
    directory.) *)
Theorem missing_root_raises_nothing (host : platform) (self : FileSync) (w : world) :
  (forall base,
     src_path self = join_with (sep host) base ->
     forallb (plain_name host) base = true ->
     (forall es, lookup (Dir (cwd w)) base <> Some (Dir es)) ->
     os_walk host (cwd w) (src_path self) = [] /\
     src_folders (scanned host self w) = [] /\
     src_files (scanned host self w) = [] /\
     sync_files host self w
     = (_check_item_deletion host (scanned host self w) ;;
        ret (scanned host self w)) w) /\
  (forall base,
     rep_path self = join_with (sep host) base ->
     forallb (plain_name host) base = true ->
     (forall es, lookup (Dir (cwd w)) base <> Some (Dir es)) ->
     os_walk host (cwd w) (rep_path self) = [] /\
     rep_folders (scanned host self w) = [] /\
     rep_files (scanned host self w) = [] /\
     sync_files host self w
     = (_check_item_creation host (scanned host self w) ;;
        ret (scanned host self w)) w).
Proof.
  assert (G : forall base,
             forallb (plain_name host) base = true ->
             (forall es, lookup (Dir (cwd w)) base <> Some (Dir es)) ->
             os_walk host (cwd w) (join_with (sep host) base) = []).
  { intros base Hb H. unfold os_walk.
    destruct (String.eqb (join_with (sep host) base) "") eqn:E; [reflexivity |].
    assert (Hne : base <> []) by (intros ->; discriminate).
    rewrite (resolve_join host base Hne Hb).
    destruct (lookup (Dir (cwd w)) base) as [[m d | es]|];
      [reflexivity | now elim (H es) | reflexivity]. }
  split; intros base Hp Hb H; specialize (G base Hb H); rewrite <- Hp in G.
  - assert (F1 : src_folders (scanned host self w) = []).
    { unfold scanned. cbn [src_folders]. now rewrite G. }
    assert (F2 : src_files (scanned host self w) = []).
    { unfold scanned. cbn [src_files]. now rewrite G. }
    repeat split; try assumption.
    unfold sync_files, bind.
    destruct (_check_item_deletion host (scanned host self w) w) as [[] w1 | e w1];
      [| reflexivity].
    unfold _check_item_creation, _check_item_modification, bind.
    now rewrite F1, F2.
  - assert (F1 : rep_folders (scanned host self w) = []).
    { unfold scanned. cbn [rep_folders]. now rewrite G. }
    assert (F2 : rep_files (scanned host self w) = []).
    { unfold scanned. cbn [rep_files]. now rewrite G. }
    repeat split; try assumption.
    unfold sync_files, bind.
    unfold _check_item_deletion at 1. unfold bind. rewrite F1, F2. cbn [for_each ret].
    destruct (_check_item_creation host (scanned host self w) w) as [[] w1 | e w1];
      [| reflexivity].
    unfold _check_item_modification. now rewrite F2, combine_nil.
Qed.

Lemma missing_root_raises_nothing_witness :
  os_walk Windows orphan_tree "source" = [] /\
  src_folders (scanned Windows sample_sync (fresh_world orphan_tree)) = [] /\
  src_files (scanned Windows sample_sync (fresh_world orphan_tree)) = [] /\
  sync_files Windows sample_sync (fresh_world orphan_tree)
  = (_check_item_deletion Windows
       (scanned Windows sample_sync (fresh_world orphan_tree)) ;;
     ret (scanned Windows sample_sync (fresh_world orphan_tree)))
      (fresh_world orphan_tree).
Proof.
  apply (proj1 (missing_root_raises_nothing Windows sample_sync
                  (fresh_world orphan_tree)) ["source"]);
    [reflexivity | reflexivity |].
  intros es. vm_compute. discriminate.
Defined.

(** C6, as stated, fails: with no source directory the cycle raises no
    error; it completes, and it has removed the replica with its content
    as if the source were an empty tree. *)
Lemma missing_source_is_not_an_error :
  exists s' w',
    sync_files Windows sample_sync (fresh_world orphan_tree) = Ok s' w' /\
    src_folders s' = [] /\
    lookup (Dir (cwd (fresh_world orphan_tree))) ["replica"; "keep.txt"]
    = Some (File 3 "x") /\
    lookup (Dir (cwd w')) ["replica"; "keep.txt"] = None /\
    lookup (Dir (cwd w')) ["replica"] = None.
Proof.
  eexists _, _. split; [reflexivity |]. repeat split.
Qed.

(** C4: the code at the failing input.  With [a.txt] and [b.txt] in the
    source and a stale [b.txt] in the replica, the path-wise ModifyFile set
    is [b.txt], but [zip] pairs the first source file with the first replica
    file: the cycle treats [a.txt] as modified and copies it over the
    replica's [b.txt], which ends with the content and timestamp of
    [a.txt]. *)
Theorem zip_pairs_files_by_position :
  modify_set_by_path Windows
    (scanned Windows sample_sync (fresh_world stale_tree)) (fresh_world stale_tree)
  = ["source\b.txt"] /\
  modified_by_cycle
    (final_world (sync_files Windows sample_sync (fresh_world stale_tree)))
  = ["source\a.txt"] /\
  log (final_world (sync_files Windows sample_sync (fresh_world stale_tree)))
  = [PathLine "Created" "source\a.txt" "replica\a.txt";
     PathLine "Modified" "source\a.txt" "replica\b.txt"] /\
  lookup (Dir (cwd (final_world
            (sync_files Windows sample_sync (fresh_world stale_tree)))))
    ["replica"; "b.txt"]
  = Some (File 1 "A").
Proof. repeat split. Qed.

(** C5: the code at the failing input.  The replica's [old.txt] and its
    directory [gone] are really deleted by the cycle, and no line is
    written for either; the one line logged is for [gone\f.txt], whose
    removal found the file already absent. *)
Theorem applied_deletions_are_not_logged :
  exists s' w',
    sync_files Windows sample_sync (fresh_world leftover_tree) = Ok s' w' /\
    lookup (Dir leftover_tree) ["replica"; "old.txt"] = Some (File 3 "x") /\
    lookup (Dir (cwd w')) ["replica"; "old.txt"] = None /\
    lookup (Dir (cwd w')) ["replica"; "gone"] = None /\
    map replicaPath (issued w')
    = ["replica\gone"; "replica\old.txt"; "replica\gone\f.txt"] /\
    log w' = [PathLine "Deleted" "source\gone\f.txt" "replica\gone\f.txt"].
Proof.
  eexists _, _. split; [reflexivity |]. repeat split.
Qed.

(** C2 (as amended).  Rebasing is [str.replace] on the root names.  On
    either host the replica enumeration is the plain enumeration put
    through [.replace("replica", "source")], and every replica path the
    cycle acts on is [.replace("source", "replica")] of a recorded path.
    For a path made of the root [source] followed by plain components
    none of which holds [source], this agrees with relative-path
    composition: the root is swapped and nothing else; likewise from
    [replica] to [source] when no component holds [replica]. *)
Theorem rebasing_is_str_replace (host : platform) (self : FileSync) (w : world) :
  (rep_folders (scanned host self w)
   = map (fun p => replace p "replica" "source")
       (fst (enumerate host (fun p => p) (os_walk host (cwd w) (rep_path self)))) /\
   rep_files (scanned host self w)
   = map (fun p => replace p "replica" "source")
       (snd (enumerate host (fun p => p) (os_walk host (cwd w) (rep_path self))))) /\
  Forall (rebased_by_replace (scanned host self w))
    (new_actions w (sync_files host self w)) /\
  (forall comps,
     forallb (plain_name host) comps = true ->
     forallb (fun c => negb (contains "source" c)) comps = true ->
     rebase_by_composition host ["source"] ["replica"]
       (join_with (sep host) ("source" :: comps))
     = Some (replace (join_with (sep host) ("source" :: comps)) "source" "replica")) /\
  (forall comps,
     forallb (plain_name host) comps = true ->
     forallb (fun c => negb (contains "replica" c)) comps = true ->
     rebase_by_composition host ["replica"] ["source"]
       (join_with (sep host) ("replica" :: comps))
     = Some (replace (join_with (sep host) ("replica" :: comps)) "replica" "source")).
Proof.
  split; [| split; [| split]].
  - unfold scanned. cbn [rep_folders rep_files].
    rewrite !enumerate_lists. cbn [fst snd]. split.
    + now rewrite map_map.
    + induction (os_walk host (cwd w) (rep_path self)) as [|it l IH];
        [reflexivity |].
      cbn [flat_map]. now rewrite map_app, <- IH, map_map.
  - destruct (passes_rebase_by_replace host (scanned host self w) w) as (l & E & F).
    now rewrite (new_actions_spec w (sync_files host self w) l E).
  - intros comps Hp Hn. unfold rebase_by_composition.
    rewrite resolve_join
      by (try discriminate; cbn [forallb]; rewrite Hp; now destruct host).
    cbn [strip_root app]. rewrite String.eqb_refl. f_equal. symmetry.
    destruct host; cbn [sep].
    + apply (replace_root "\" "source" "replica"); [discriminate | reflexivity | exact Hn].
    + apply (replace_root "/" "source" "replica"); [discriminate | reflexivity | exact Hn].
  - intros comps Hp Hn. unfold rebase_by_composition.
    rewrite resolve_join
      by (try discriminate; cbn [forallb]; rewrite Hp; now destruct host).
    cbn [strip_root app]. rewrite String.eqb_refl. f_equal. symmetry.
    destruct host; cbn [sep].
    + apply (replace_root "\" "replica" "source"); [discriminate | reflexivity | exact Hn].
    + apply (replace_root "/" "replica" "source"); [discriminate | reflexivity | exact Hn].
Qed.

(** A file below a directory whose name holds the name of the other
    root: [replica_old] stays as it is on the way to the replica. *)
Lemma rebasing_is_str_replace_witness :
  rebase_by_composition Posix ["source"] ["replica"] "source/replica_old/f.txt"
  = Some (replace "source/replica_old/f.txt" "source" "replica") /\
  rebase_by_composition Windows ["replica"] ["source"] "replica\source_old\f.txt"
  = Some (replace "replica\source_old\f.txt" "replica" "source").
Proof.
  split.
  - apply (proj1 (proj2 (proj2 (rebasing_is_str_replace Posix sample_sync
                                  (fresh_world small_tree))))
             ["replica_old"; "f.txt"]); reflexivity.
  - apply (proj2 (proj2 (proj2 (rebasing_is_str_replace Windows sample_sync
                                  (fresh_world small_tree))))
             ["source_old"; "f.txt"]); reflexivity.
Defined.

(** C2, as stated, fails: a sub-directory named like the root is
    rewritten too, so the replica path of [source\source] comes out as
    [replica\replica] where composition gives [replica\source]; the cycle
    asks for the directory [replica\replica]. *)
Lemma replace_depends_on_root_name_matches :
  replace "source\source" "source" "replica" = "replica\replica" /\
  rebase_by_composition Windows ["source"] ["replica"] "source\source"
  = Some "replica\source" /\
  In (mkAction CreateDir "source\source" "replica\replica")
    (new_actions (fresh_world namesake_tree)
       (sync_files Windows sample_sync (fresh_world namesake_tree))).
Proof. repeat split. right. left. reflexivity. Qed.

(** C3 (as amended).  On a Windows host, for a root given by plain
    components from the working directory and a tree of plain names below
    it, the enumeration is complete and exact, and its paths are relative
    to the working directory: the folder list holds the path of the root
    followed by the components of each directory below it (the root itself
    included), the file list likewise for each file, both passed through
    the rebasing of that side. *)
Theorem enumeration_is_complete_from_cwd (rebase : string -> string)
    (root : entries) (base : list string) (es : entries) :
  base <> [] ->
  forallb (plain_name Windows) base = true ->
  lookup (Dir root) base = Some (Dir es) ->
  wf_node (plain_name Windows) (Dir es) = true ->
  (forall s,
      In s (fst (enumerate Windows rebase (os_walk Windows root (join_with "\" base))))
      <-> exists p sub,
            s = rebase (join_with "\" (base ++ p)) /\
            lookup (Dir root) (base ++ p) = Some (Dir sub)) /\
  (forall s,
      In s (snd (enumerate Windows rebase (os_walk Windows root (join_with "\" base))))
      <-> exists p m d,
            p <> [] /\
            s = rebase (join_with "\" (base ++ p)) /\
            lookup (Dir root) (base ++ p) = Some (File m d)).
Proof.
  intros Hne Hb Hl Hwf. unfold os_walk.
  rewrite (proj2 (String.eqb_neq _ _) (join_with_not_empty Windows "\" base Hne Hb)).
  change "\" with (sep Windows) at 1 3.
  rewrite !resolve_join by assumption. rewrite Hl. cbn [sep].
  rewrite (enumerate_walk rebase (Dir es) base Hwf Hne Hb). cbn [fst snd].
  split; intros s; rewrite in_map_iff.
  - split.
    + intros (p & <- & Hp).
      apply (dir_paths_lookup _ _ Hwf) in Hp as (sub & Hp).
      exists p, sub. split; [reflexivity |]. now rewrite (lookup_app _ _ _ _ Hl).
    + intros (p & sub & -> & Hp). exists p. split; [reflexivity |].
      apply (dir_paths_lookup _ _ Hwf). exists sub.
      now rewrite (lookup_app _ _ _ _ Hl) in Hp.
  - split.
    + intros (p & <- & Hp).
      apply (file_paths_lookup _ _ Hwf) in Hp as (Hp0 & m & d & Hp).
      exists p, m, d. repeat split; [assumption |].
      now rewrite (lookup_app _ _ _ _ Hl).
    + intros (p & m & d & Hp0 & -> & Hp). exists p. split; [reflexivity |].
      apply (file_paths_lookup _ _ Hwf). split; [assumption |]. exists m, d.
      now rewrite (lookup_app _ _ _ _ Hl) in Hp.
Qed.

Lemma enumeration_is_complete_from_cwd_witness :
  (forall s,
      In s (fst (enumerate Windows (fun p => p) (os_walk Windows nested_tree "source")))
      <-> exists p sub,
            s = join_with "\" (["source"] ++ p) /\
            lookup (Dir nested_tree) (["source"] ++ p) = Some (Dir sub)) /\
  (forall s,
      In s (snd (enumerate Windows (fun p => p) (os_walk Windows nested_tree "source")))
      <-> exists p m d,
            p <> [] /\
            s = join_with "\" (["source"] ++ p) /\
            lookup (Dir nested_tree) (["source"] ++ p) = Some (File m d)).
Proof.
  apply (enumeration_is_complete_from_cwd (fun p => p) nested_tree ["source"]
           nested_source);
    [discriminate | reflexivity | reflexivity | reflexivity].
Defined.

(** C3, as stated, fails: the paths are not relative to the root passed
    in.  For the root [source] holding [a.txt] and the directory [d], the
    lists are [source], [source\d] and [source\a.txt], where the paths
    relative to the root are [d] and [a.txt]. *)
Lemma enumeration_is_not_root_relative :
  enumerate Windows (fun p => p) (os_walk Windows small_tree "source")
  = (["source"; "source\d"], ["source\a.txt"]) /\
  relative_enumeration Windows small_tree "source" = (["d"], ["a.txt"]) /\
  enumerate Windows (fun p => p) (os_walk Windows small_tree "source")
  <> relative_enumeration Windows small_tree "source".
Proof. repeat split. discriminate. Qed.







(* ================================================================== *)
(** * Further properties of the code *)

(* ------------------------------------------------------------------ *)
(** ** What a run prints *)

Lemma writes_ret {A : Type} (P : log_line -> Prop) (a : A) : writes P (ret a).
Proof. intros w. exists []. now rewrite app_nil_r. Qed.

Lemma writes_bind {A B : Type} (P : log_line -> Prop) (m : M A) (k : A -> M B) :
  writes P m -> (forall a, writes P (k a)) -> writes P (bind m k).
Proof.
  intros Hm Hk w. unfold bind. destruct (Hm w) as (l1 & E1 & F1).
  destruct (m w) as [a w1 | e w1]; cbn [final_world] in E1.
  - destruct (Hk a w1) as (l2 & E2 & F2). exists (l1 ++ l2).
    rewrite E2, E1, app_assoc. split; [reflexivity | now apply Forall_app].
  - exists l1. now split.
Qed.

Lemma writes_try {A : Type} (P : log_line -> Prop) (body handler : M A) (e : exn) :
  writes P body -> writes P handler -> writes P (try_except body e handler).
Proof.
  intros Hb Hh w. unfold try_except. destruct (Hb w) as (l1 & E1 & F1).
  destruct (body w) as [a w1 | e' w1]; cbn [final_world] in E1.
  - exists l1. now split.
  - destruct (exn_eqb e' e).
    + destruct (Hh w1) as (l2 & E2 & F2). exists (l1 ++ l2).
      rewrite E2, E1, app_assoc. split; [reflexivity | now apply Forall_app].
    + exists l1. now split.
Qed.

Lemma writes_for_each {A : Type} (P : log_line -> Prop) (l : list A) (body : A -> M unit) :
  (forall x, In x l -> writes P (body x)) -> writes P (for_each l body).
Proof.
  induction l as [|x l IH]; intros H; cbn [for_each].
  - apply writes_ret.
  - apply writes_bind; [apply H; now left |].
    intros _. apply IH. intros y Hy. apply H. now right.
Qed.

Lemma quiet_writes {A : Type} (P : log_line -> Prop) (m : M A) :
  preserves log m -> writes P m.
Proof. intros H w. exists []. now rewrite app_nil_r, H. Qed.

(** [log_action] prints its line, or fails before it prints. *)
Lemma log_action_prints (host : platform) (self : FileSync) (act src rep : string)
    (w : world) :
  match log_action host self act src rep w with
  | Ok _ w' => log w' = log w ++ [entry act src rep]
  | Raise _ w' => w' = w
  end.
Proof.
  destruct (log_action host self act src rep w) as [[] w' | e w'] eqn:E.
  - rewrite log_action_unfold in E. unfold bind in E.
    destruct (append_text _ _ _ _ w) as [[] w1 | e1 w1] eqn:Ea; [| discriminate].
    injection E as <-. cbn [log].
    now rewrite (ok_keeps log _ _ _ _
                   (preserves_append_text log log_set_cwd host _ _ _) Ea).
  - exact (log_action_raise _ _ _ _ _ _ _ _ E).
Qed.

Lemma writes_log_action (P : log_line -> Prop) (host : platform) (self : FileSync)
    (act src rep : string) :
  P (entry act src rep) -> writes P (log_action host self act src rep).
Proof.
  intros H w. pose proof (log_action_prints host self act src rep w) as G.
  destruct (log_action host self act src rep w) as [[] w' | e w']; cbn [final_world].
  - exists [entry act src rep]. split; [exact G | now constructor].
  - subst w'. exists []. split; [now rewrite app_nil_r | constructor].
Qed.

Lemma quiet_issue (k : kind) (src rep : string) : preserves log (issue k src rep).
Proof. intros w. reflexivity. Qed.

Lemma new_lines_spec {A : Type} (w : world) (o : outcome A) (l : list log_line) :
  log (final_world o) = log w ++ l -> new_lines w o = l.
Proof.
  intros E. unfold new_lines. rewrite E, skipn_app, skipn_all, Nat.sub_diag.
  reflexivity.
Qed.

(* ------------------------------------------------------------------ *)
(** ** The recorded paths are not empty *)

Lemma norm_from_not_empty (comps stack : list string) :
  Forall (fun c => c <> "") stack ->
  Forall (fun c => c <> "") (norm_from stack comps).
Proof.
  revert stack. induction comps as [|c cs IH]; intros stack H; cbn [norm_from].
  - now apply Forall_rev.
  - destruct (String.eqb c "") eqn:E0; cbn [orb]; [now apply IH |].
    apply String.eqb_neq in E0.
    destruct (String.eqb c "."); [now apply IH |].
    destruct (String.eqb c "..").
    + destruct stack as [|top st]; [apply IH; now constructor |].
      destruct (String.eqb top "..").
      * apply IH. now constructor.
      * apply IH. now inversion H.
    + apply IH. now constructor.
Qed.

Lemma join_with_parts_not_empty (s : string) (comps : list string) :
  comps <> [] -> Forall (fun c => c <> "") comps -> join_with s comps <> "".
Proof.
  destruct comps as [|c cs]; [congruence |]. intros _ H.
  inversion H as [|? ? Hc _]; subst.
  destruct cs as [|d cs]; cbn [join_with]; [exact Hc |].
  destruct c; [congruence | discriminate].
Qed.

Lemma relpath_not_empty (host : platform) (p : string) : relpath host p <> "".
Proof.
  unfold relpath. destruct (resolve host p) as [|c cs] eqn:E; [discriminate |].
  apply join_with_parts_not_empty; [discriminate |].
  rewrite <- E. apply norm_from_not_empty. constructor.
Qed.

Lemma append_not_empty (a b : string) : a <> "" -> a +++ b <> "".
Proof. destruct a; [congruence | discriminate]. Qed.

Lemma replace_not_empty (s old new : string) :
  s <> "" -> new <> "" -> replace s old new <> "".
Proof.
  intros Hs Hn. destruct s as [|c s]; [congruence |].
  unfold replace. destruct old as [|o old].
  - cbn [intersperse]. now apply append_not_empty.
  - cbn [replace_from]. destruct (String.prefix (String o old) (String c s)).
    + now apply append_not_empty.
    + discriminate.
Qed.

Lemma scanned_paths_not_empty (host : platform) (self : FileSync) (w : world) :
  Forall (fun s => s <> "") (src_folders (scanned host self w)) /\
  Forall (fun s => s <> "") (rep_folders (scanned host self w)) /\
  Forall (fun s => s <> "") (src_files (scanned host self w)) /\
  Forall (fun s => s <> "") (rep_files (scanned host self w)).
Proof.
  unfold scanned. cbn [src_folders rep_folders src_files rep_files].
  rewrite !enumerate_lists. cbn [fst snd].
  repeat split; apply Forall_forall; intros s Hs.
  - apply in_map_iff in Hs as (it & <- & _). apply relpath_not_empty.
  - apply in_map_iff in Hs as (it & <- & _).
    apply replace_not_empty; [apply relpath_not_empty | discriminate].
  - apply in_flat_map in Hs as (it & _ & Hs).
    apply in_map_iff in Hs as (f & <- & _). apply relpath_not_empty.
  - apply in_flat_map in Hs as (it & _ & Hs).
    apply in_map_iff in Hs as (f & <- & _).
    apply replace_not_empty; [apply relpath_not_empty | discriminate].
Qed.

Lemma entry_is_item_line (act src rep : string) :
  (String.eqb act "Created" || String.eqb act "Deleted" || String.eqb act "Modified") = true ->
  src <> "" -> rep <> "" ->
  is_item_line (entry act src rep) = true.
Proof.
  intros Ha Hs Hr. unfold entry.
  apply String.eqb_neq in Hs. apply String.eqb_neq in Hr.
  rewrite Hs, Hr. cbn [negb andb is_item_line]. now rewrite Ha, Hs, Hr.
Qed.

Lemma to_replica_not_empty (s : string) : s <> "" -> replace s "source" "replica" <> "".
Proof. intros H. apply replace_not_empty; [exact H | discriminate]. Qed.

(** The lines of the three passes, for an object whose lists hold no
    empty path. *)
Lemma passes_write_item_lines (host : platform) (s : FileSync) :
  Forall (fun p => p <> "") (src_folders s) ->
  Forall (fun p => p <> "") (rep_folders s) ->
  Forall (fun p => p <> "") (src_files s) ->
  Forall (fun p => p <> "") (rep_files s) ->
  writes (fun l => is_item_line l = true)
    (_check_item_deletion host s ;;
     _check_item_creation host s ;;
     _check_item_modification host s ;; ret s).
Proof.
  intros F1 F2 F3 F4. rewrite Forall_forall in F1, F2, F3, F4.
  apply writes_bind; [| intros _; apply writes_bind; [| intros _; apply writes_bind]].
  - unfold _check_item_deletion.
    apply writes_bind; [| intros _]; apply writes_for_each; intros x Hx.
    + unfold delete_folder. destruct (negb (mem x (src_folders s))); [| apply writes_ret].
      apply writes_try.
      * apply writes_bind; [apply quiet_writes, quiet_issue |].
        intros _. apply quiet_writes, preserves_rmtree, log_set_cwd.
      * apply writes_log_action, entry_is_item_line;
          [reflexivity | now apply F2 | now apply to_replica_not_empty, F2].
    + unfold delete_file. destruct (negb (mem x (src_files s))); [| apply writes_ret].
      apply writes_try.
      * apply writes_bind; [apply quiet_writes, quiet_issue |].
        intros _. apply quiet_writes, preserves_os_remove, log_set_cwd.
      * apply writes_log_action, entry_is_item_line;
          [reflexivity | now apply F4 | now apply to_replica_not_empty, F4].
  - unfold _check_item_creation.
    apply writes_bind; [| intros _]; apply writes_for_each; intros x Hx.
    + unfold create_folder. destruct (negb (mem x (rep_folders s))); [| apply writes_ret].
      apply writes_bind; [apply quiet_writes, quiet_issue |]. intros _.
      apply writes_bind; [apply quiet_writes, preserves_makedirs, log_set_cwd |]. intros _.
      apply writes_log_action, entry_is_item_line;
        [reflexivity | now apply F1 | now apply to_replica_not_empty, F1].
    + unfold create_file. destruct (negb (mem x (rep_files s))); [| apply writes_ret].
      apply writes_bind; [apply quiet_writes, quiet_issue |]. intros _.
      apply writes_bind; [apply quiet_writes, preserves_copy2, log_set_cwd |]. intros _.
      apply writes_log_action, entry_is_item_line;
        [reflexivity | now apply F3 | now apply to_replica_not_empty, F3].
  - unfold _check_item_modification. apply writes_for_each. intros [sf rf] Hx.
    unfold modify_file.
    apply writes_bind; [now apply quiet_writes, preserves_get_file_time |]. intros t_src.
    apply writes_bind; [now apply quiet_writes, preserves_get_file_time |]. intros t_rep.
    destruct (negb (t_src =? t_rep)%Z); [| apply writes_ret].
    apply writes_bind; [apply quiet_writes, quiet_issue |]. intros _.
    apply writes_bind; [apply quiet_writes, preserves_copy2, log_set_cwd |]. intros _.
    apply writes_log_action, entry_is_item_line; [reflexivity | |].
    + apply F3. exact (in_combine_l _ _ _ _ Hx).
    + apply to_replica_not_empty, F4. exact (in_combine_r _ _ _ _ Hx).
  - intros _. apply writes_ret.
Qed.

Lemma sync_files_writes (host : platform) (self : FileSync) :
  writes (fun l => is_item_line l = true) (sync_files host self).
Proof.
  intros w. unfold sync_files.
  destruct (scanned_paths_not_empty host self w) as (F1 & F2 & F3 & F4).
  exact (passes_write_item_lines host (scanned host self w) F1 F2 F3 F4 w).
Qed.

Lemma item_line_no_marker (l : log_line) : is_item_line l = true -> is_marker l = false.
Proof. destruct l; [reflexivity | discriminate]. Qed.

(** X1.  What a cycle prints, whatever its outcome, on either host and
    from any state of the working directory: every line is about one
    item, with one of the labels [Created], [Deleted], [Modified] and two
    paths, neither of them empty; so a cycle never prints a bare line such
    as the completion line of the scheduler. *)
Theorem sync_files_appends_item_lines (host : platform) (self : FileSync) (w : world) :
  log (final_world (sync_files host self w))
  = log w ++ new_lines w (sync_files host self w) /\
  forallb is_item_line (new_lines w (sync_files host self w)) = true /\
  existsb is_marker (new_lines w (sync_files host self w)) = false.
Proof.
  destruct (sync_files_writes host self w) as (l & E & F).
  rewrite (new_lines_spec _ _ _ E). split; [exact E |]. split.
  - apply forallb_forall. now apply Forall_forall.
  - apply not_true_is_false. intros H.
    apply existsb_exists in H as (x & Hx & Hm).
    rewrite Forall_forall in F. apply F, item_line_no_marker in Hx. congruence.
Qed.

(* ------------------------------------------------------------------ *)
(** ** A deletion is either applied or reported *)

Lemma exn_eqb_eq (a b : exn) : exn_eqb a b = true -> a = b.
Proof. destruct a, b; (reflexivity || discriminate). Qed.

(** [rmtree] that does not find its target leaves the world as it is. *)
Lemma rmtree_not_found (host : platform) (path : string) (w w' : world) :
  rmtree host path w = Raise FileNotFoundError w' -> w' = w.
Proof.
  unfold rmtree.
  destruct (stat (Dir (cwd w)) (resolve host path)) as [[m d | es] | |]; intros H;
    try discriminate; try congruence.
  destruct (resolve host path).
  - destruct host; discriminate.
  - now apply commit_raise in H.
Qed.

Lemma os_remove_raise (host : platform) (path : string) (w w' : world) (e : exn) :
  os_remove host path w = Raise e w' -> w' = w.
Proof.
  unfold os_remove.
  destruct (stat (Dir (cwd w)) (resolve host path)) as [[m d | es] | |]; intros H;
    try (now injection H as _ <-).
  now apply commit_raise in H.
Qed.

Lemma removal_applied_or_reported (host : platform) (self : FileSync) (body : M unit)
    (k : kind) (x : string) (w : world) :
  preserves log body ->
  (forall w0 w', body w0 = Raise FileNotFoundError w' -> w' = w0) ->
  let o := try_except (issue k x (replace x "source" "replica") ;; body)
             FileNotFoundError
             (log_action host self "Deleted" x (replace x "source" "replica")) w in
  log (final_world o) = log w \/
  exists w1,
    cwd w1 = cwd w /\ log w1 = log w /\
    o = log_action host self "Deleted" x (replace x "source" "replica") w1.
Proof.
  intros Hlog Hraise. cbv zeta. unfold try_except, bind, issue.
  match goal with |- context [body ?w0] => destruct (body w0) as [[] w1 | e w1] eqn:E end.
  - left. cbn [final_world]. now apply (ok_keeps log) in E.
  - destruct (exn_eqb e FileNotFoundError) eqn:Ee.
    + right. apply exn_eqb_eq in Ee. subst e. apply Hraise in E. subst w1.
      eexists. split; [| split; [| reflexivity]]; reflexivity.
    + left. cbn [final_world]. now apply (raise_keeps log) in E.
Qed.

(** X3.  For every item of the deletion pass, on either host and from any
    state: either the item prints nothing, or its removal has found
    nothing to remove, and the item is then the call of [log_action] for
    the line [Deleted: item > target] on the tree as the item found it.
    So a [Deleted] line is printed only for an item whose removal has
    changed nothing, and by that call, which appends it to the log file
    first. *)
Theorem deletion_is_applied_or_logged (host : platform) (self : FileSync)
    (x : string) (w : world) :
  (log (final_world (delete_folder host self x w)) = log w \/
   exists w1,
     cwd w1 = cwd w /\ log w1 = log w /\
     delete_folder host self x w
     = log_action host self "Deleted" x (replace x "source" "replica") w1) /\
  (log (final_world (delete_file host self x w)) = log w \/
   exists w1,
     cwd w1 = cwd w /\ log w1 = log w /\
     delete_file host self x w
     = log_action host self "Deleted" x (replace x "source" "replica") w1).
Proof.
  split.
  - unfold delete_folder. destruct (negb (mem x (src_folders self))); [| now left].
    apply removal_applied_or_reported.
    + apply preserves_rmtree, log_set_cwd.
    + intros w0 w'. apply rmtree_not_found.
  - unfold delete_file. destruct (negb (mem x (src_files self))); [| now left].
    apply removal_applied_or_reported.
    + apply preserves_os_remove, log_set_cwd.
    + intros w0 w'. apply os_remove_raise.
Qed.

Lemma bind_ok {A B : Type} (m : M A) (k : A -> M B) (w w1 : world) (a : A) :
  m w = Ok a w1 -> bind m k w = k a w1.
Proof. intros H. unfold bind. now rewrite H. Qed.

Lemma bind_raise {A B : Type} (m : M A) (k : A -> M B) (w w1 : world) (e : exn) :
  m w = Raise e w1 -> bind m k w = Raise e w1.
Proof. intros H. unfold bind. now rewrite H. Qed.

(* ------------------------------------------------------------------ *)
(** ** Lines and actions of a run that completes *)

Lemma reports_ret {A : Type} (a : A) : reports (ret a).
Proof.
  intros w a' w' H. injection H as _ <-. exists []. now rewrite !app_nil_r.
Qed.

Lemma reports_bind {A B : Type} (m : M A) (k : A -> M B) :
  reports m -> (forall a, reports (k a)) -> reports (bind m k).
Proof.
  intros Hm Hk w b w2. unfold bind.
  destruct (m w) as [a w1 | e w1] eqn:E; [| discriminate]. intros H.
  destruct (Hm w a w1 E) as (l1 & I1 & L1).
  destruct (Hk a w1 b w2 H) as (l2 & I2 & L2).
  exists (l1 ++ l2). rewrite I2, I1, L2, L1, map_app, !app_assoc. now split.
Qed.

Lemma reports_for_each {A : Type} (l : list A) (body : A -> M unit) :
  (forall x, reports (body x)) -> reports (for_each l body).
Proof.
  intros H. induction l as [|x l IH]; cbn [for_each].
  - apply reports_ret.
  - apply reports_bind; [apply H | intros _; exact IH].
Qed.

(** A step that touches neither the ghost record nor the printed lines. *)
Lemma reports_quiet {A : Type} (m : M A) :
  silent m -> preserves log m -> reports m.
Proof.
  intros Hs Hl w a w' H. exists []. rewrite !app_nil_r.
  split; [exact (ok_keeps issued m w w' a Hs H) | exact (ok_keeps log m w w' a Hl H)].
Qed.

(** An action that is issued, applied by a quiet call, then logged. *)
Lemma reports_applied (host : platform) (self : FileSync) (k : kind)
    (src rep : string) (call : M unit) :
  silent call -> preserves log call ->
  reports (issue k src rep ;; call ;; log_action host self (label k) src rep).
Proof.
  intros Hs Hl w a w'. unfold bind, issue.
  match goal with |- context [call ?w0] => destruct (call w0) as [[] w1 | e w1] eqn:E end;
    [| discriminate].
  intros H. pose proof (log_action_prints host self (label k) src rep w1) as G.
  rewrite H in G.
  pose proof (ok_keeps issued _ _ _ _ (silent_log_action host self (label k) src rep) H)
    as Gi.
  exists [mkAction k src rep]. cbn [map]. unfold line_of.
  cbn [act_kind sourcePath replicaPath].
  rewrite Gi, G, (ok_keeps issued call _ w1 tt Hs E), (ok_keeps log call _ w1 tt Hl E).
  now split.
Qed.

Lemma reports_create_folder (host : platform) (self : FileSync) (folder : string) :
  reports (create_folder host self folder).
Proof.
  unfold create_folder. destruct (negb (mem folder (rep_folders self)));
    [| apply reports_ret].
  apply (reports_applied host self CreateDir);
    [apply silent_makedirs | apply preserves_makedirs, log_set_cwd].
Qed.

Lemma reports_create_file (host : platform) (self : FileSync) (file_path : string) :
  reports (create_file host self file_path).
Proof.
  unfold create_file. destruct (negb (mem file_path (rep_files self)));
    [| apply reports_ret].
  apply (reports_applied host self CreateFile);
    [apply silent_copy2 | apply preserves_copy2, log_set_cwd].
Qed.

Lemma reports_modify_file (host : platform) (self : FileSync)
    (files : string * string) :
  reports (modify_file host self files).
Proof.
  destruct files as [src_file rep_file]. unfold modify_file.
  apply reports_bind;
    [apply reports_quiet;
     [apply silent_get_file_time | now apply preserves_get_file_time] |].
  intros t_src. apply reports_bind;
    [apply reports_quiet;
     [apply silent_get_file_time | now apply preserves_get_file_time] |].
  intros t_rep. destruct (negb (t_src =? t_rep)%Z); [| apply reports_ret].
  apply (reports_applied host self ModifyFile);
    [apply silent_copy2 | apply preserves_copy2, log_set_cwd].
Qed.

Lemma reports_creation_and_modification (host : platform) (s : FileSync) :
  reports (_check_item_creation host s ;; _check_item_modification host s ;; ret s).
Proof.
  apply reports_bind; [| intros _; apply reports_bind; [| intros _; apply reports_ret]].
  - unfold _check_item_creation.
    apply reports_bind; [| intros _]; apply reports_for_each; intros x.
    + apply reports_create_folder.
    + apply reports_create_file.
  - unfold _check_item_modification. apply reports_for_each. intros x.
    apply reports_modify_file.
Qed.

Lemma emits_deletion_pass (host : platform) (s : FileSync) :
  emits (fun a => is_deletion_kind (act_kind a) = true) (_check_item_deletion host s).
Proof.
  unfold _check_item_deletion.
  apply emits_bind; [| intros _]; apply emits_for_each; intros x _.
  - refine (emits_weaken _ _ _ _ (emits_delete_folder host s x)). now intros a <-.
  - refine (emits_weaken _ _ _ _ (emits_delete_file host s x)). now intros a <-.
Qed.

Lemma emits_creation_and_modification (host : platform) (s : FileSync) :
  emits (fun a => is_deletion_kind (act_kind a) = false)
    (_check_item_creation host s ;; _check_item_modification host s ;; ret s).
Proof.
  apply emits_bind; [| intros _; apply emits_bind; [| intros _; apply emits_ret]].
  - unfold _check_item_creation.
    apply emits_bind; [| intros _]; apply emits_for_each; intros x _.
    + refine (emits_weaken _ _ _ _ (emits_create_folder host s x)). now intros a <-.
    + refine (emits_weaken _ _ _ _ (emits_create_file host s x)). now intros a <-.
  - unfold _check_item_modification. apply emits_for_each. intros x _.
    refine (emits_weaken _ _ _ _ (emits_modify_file host s x)). now intros a <-.
Qed.

Lemma line_label_entry (act src rep : string) : line_label (entry act src rep) = act.
Proof. unfold entry. now destruct (negb (src =? "") && negb (rep =? "")). Qed.

Lemma writes_deletion_pass (host : platform) (s : FileSync) :
  writes (fun l => line_label l = "Deleted") (_check_item_deletion host s).
Proof.
  unfold _check_item_deletion.
  apply writes_bind; [| intros _]; apply writes_for_each; intros x _.
  - unfold delete_folder. destruct (negb (mem x (src_folders s))); [| apply writes_ret].
    apply writes_try.
    + apply writes_bind; [apply quiet_writes, quiet_issue |].
      intros _. apply quiet_writes, preserves_rmtree, log_set_cwd.
    + apply writes_log_action, line_label_entry.
  - unfold delete_file. destruct (negb (mem x (src_files s))); [| apply writes_ret].
    apply writes_try.
    + apply writes_bind; [apply quiet_writes, quiet_issue |].
      intros _. apply quiet_writes, preserves_os_remove, log_set_cwd.
    + apply writes_log_action, line_label_entry.
Qed.

Lemma filter_none {A : Type} (f : A -> bool) (l : list A) :
  Forall (fun x => f x = false) l -> filter f l = [].
Proof.
  induction 1 as [|x l Hx _ IH]; cbn [filter]; [reflexivity | now rewrite Hx].
Qed.

Lemma filter_all {A : Type} (f : A -> bool) (l : list A) :
  Forall (fun x => f x = true) l -> filter f l = l.
Proof.
  induction 1 as [|x l Hx _ IH]; cbn [filter]; [reflexivity | now rewrite Hx, IH].
Qed.

Lemma label_not_deleted (k : kind) :
  is_deletion_kind k = false -> String.eqb (label k) "Deleted" = false.
Proof. destruct k; (discriminate || reflexivity). Qed.

(** X4.  In a cycle that completes, on either host and from any state,
    the lines printed that are not [Deleted] lines are exactly the lines
    of the creation and modification actions the cycle has issued, one
    line for each action and in the same order: every directory made,
    every file copied and every file overwritten is reported, and nothing
    else is reported as created or modified. *)
Theorem applied_creations_and_modifications_are_logged (host : platform)
    (self : FileSync) (w : world) :
  completed (sync_files host self w) = true ->
  filter (fun l => negb (String.eqb (line_label l) "Deleted"))
    (new_lines w (sync_files host self w))
  = map line_of
      (filter (fun a => negb (is_deletion_kind (act_kind a)))
         (new_actions w (sync_files host self w))).
Proof.
  unfold sync_files. set (s := scanned host self w).
  destruct (emits_deletion_pass host s w) as (la1 & I1 & K1).
  destruct (writes_deletion_pass host s w) as (ll1 & L1 & D1).
  destruct (_check_item_deletion host s w) as [[] w1 | e w1] eqn:E1;
    [rewrite (bind_ok _ _ _ _ _ E1) | now rewrite (bind_raise _ _ _ _ _ E1)].
  cbn [final_world] in I1, L1.
  destruct (emits_creation_and_modification host s w1) as (la2 & I2 & K2).
  pose proof (reports_creation_and_modification host s w1) as R.
  destruct ((_check_item_creation host s ;; _check_item_modification host s ;; ret s) w1)
    as [s' w2 | e w2]; [| discriminate].
  intros _. cbn [final_world] in I2.
  destruct (R s' w2 eq_refl) as (la & I & L).
  rewrite I2 in I. apply app_inv_head in I. subst la.
  rewrite (new_lines_spec w (Ok s' w2) (ll1 ++ map line_of la2))
    by (cbn [final_world]; now rewrite L, L1, app_assoc).
  rewrite (new_actions_spec w (Ok s' w2) (la1 ++ la2))
    by (cbn [final_world]; now rewrite I2, I1, app_assoc).
  rewrite !filter_app.
  rewrite (filter_none _ ll1), (filter_none _ la1), !app_nil_l.
  - rewrite filter_all, filter_all; [reflexivity | |].
    + revert K2. apply Forall_impl. intros a Ha. now rewrite Ha.
    + apply Forall_map. revert K2. apply Forall_impl. intros a Ha.
      unfold line_of. rewrite line_label_entry, (label_not_deleted _ Ha). reflexivity.
  - revert K1. apply Forall_impl. intros a Ha. now rewrite Ha.
  - revert D1. apply Forall_impl. intros l Hl. now rewrite Hl.
Qed.

(** The sample cycle on [stale_tree]: one file created, one overwritten. *)
Lemma applied_creations_and_modifications_are_logged_witness :
  filter (fun l => negb (String.eqb (line_label l) "Deleted"))
    (new_lines (fresh_world stale_tree)
       (sync_files Windows sample_sync (fresh_world stale_tree)))
  = map line_of
      (filter (fun a => negb (is_deletion_kind (act_kind a)))
         (new_actions (fresh_world stale_tree)
            (sync_files Windows sample_sync (fresh_world stale_tree)))).
Proof.
  apply (applied_creations_and_modifications_are_logged Windows sample_sync
           (fresh_world stale_tree)).
  reflexivity.
Defined.

(* ------------------------------------------------------------------ *)
(** ** The loop of the scheduler *)








(** A negative interval: the first turn prints its completion line and
    fails in [time.sleep]. *)
Lemma negative_interval_stops_the_loop :
  scheduler_loop Windows 1 (init "source" "replica" (-1) "log_file.txt")
    (fresh_world (with_log small_tree))
  = Raise ValueError
      (final_world
         (scheduler_loop Windows 1 (init "source" "replica" (-1) "log_file.txt")
            (fresh_world (with_log small_tree)))) /\
  filter is_marker
    (log (final_world
            (scheduler_loop Windows 1 (init "source" "replica" (-1) "log_file.txt")
               (fresh_world (with_log small_tree)))))
  = [completion_line].
Proof. split; reflexivity. Qed.

(** X6.  No exception is caught around the loop of [sync_scheduler]: once
    a turn has ended with an exception, no further turn runs.  The outcome
    after any larger number of turns is the outcome of the failed run:
    same exception, same tree, same log. *)
Theorem scheduler_stops_at_first_exception (host : platform) (n k : nat)
    (self : FileSync) (w : world) :
  completed (scheduler_loop host n self w) = false ->
  scheduler_loop host (n + k) self w = scheduler_loop host n self w.
Proof.
  revert self w. induction n as [|n IH]; intros self w; cbn [scheduler_loop Nat.add].
  - discriminate.
  - destruct (scheduler_turn host self w) as [s1 w1 | e w1] eqn:Et.
    + rewrite !(bind_ok _ _ _ _ _ Et). apply IH.
    + now rewrite !(bind_raise _ _ _ _ _ Et).
Qed.

(** With the replica path taken by a regular file the first turn fails,
    and so do three. *)
Lemma scheduler_stops_at_first_exception_witness :
  scheduler_loop Windows (1 + 2) sample_sync (fresh_world occupied_tree)
  = scheduler_loop Windows 1 sample_sync (fresh_world occupied_tree).
Proof.
  apply (scheduler_stops_at_first_exception Windows 1 2 sample_sync
           (fresh_world occupied_tree)).
  reflexivity.
Defined.

(* ------------------------------------------------------------------ *)
(** ** A cycle over a replica in step with the source *)

(** One pair of the modification pass whose two files show the same
    timestamp: both timestamps are read and nothing is done. *)
Lemma modify_file_same_time (self : FileSync) (p : list string) (w : world)
    (m : Z) (d d0 : string) :
  forallb sync_name p = true ->
  stat (Dir (cwd w)) ("source" :: p) = Found (File m d) ->
  stat (Dir (cwd w)) ("replica" :: p) = Found (File m d0) ->
  convertible Windows m = true ->
  modify_file Windows self (source_path p, source_path p) w
  = Ok tt (mkWorld (cwd w) (log w) (issued w)
             (probed w ++ [source_path p; replica_path p]) (clock w)).
Proof.
  intros Hn Hs Hr Hm. unfold modify_file, bind.
  rewrite (get_file_time_file Windows (source_path p) w m d)
    by (rewrite ?(resolve_source_path _ Hn); assumption).
  rewrite (to_replica_path _ Hn).
  rewrite (get_file_time_file Windows (replica_path p) _ m d0)
    by (rewrite ?(resolve_replica_path _ Hn); assumption).
  rewrite Z.eqb_refl. cbn [negb ret cwd log issued probed clock].
  now rewrite <- app_assoc.
Qed.

Lemma same_time_loop (self : FileSync) (l : list (list string)) :
  forall w : world,
    (forall p, In p l ->
       forallb sync_name p = true /\
       exists m d d0,
         stat (Dir (cwd w)) ("source" :: p) = Found (File m d) /\
         stat (Dir (cwd w)) ("replica" :: p) = Found (File m d0) /\
         convertible Windows m = true) ->
    exists w',
      for_each (map (fun p => (source_path p, source_path p)) l)
        (modify_file Windows self) w
      = Ok tt w' /\
      cwd w' = cwd w /\ log w' = log w /\ issued w' = issued w /\
      clock w' = clock w /\
      probed w'
      = probed w ++ flat_map (fun p => [source_path p; replica_path p]) l.
Proof.
  induction l as [|p l IH]; intros w H.
  - exists w. cbn [map for_each flat_map]. now rewrite app_nil_r.
  - destruct (H p (or_introl eq_refl)) as (Hn & m & d & d0 & Hs & Hr & Hm).
    pose proof (modify_file_same_time self p w m d d0 Hn Hs Hr Hm) as E1.
    cbn [map]. rewrite (for_each_cons_ok _ _ _ _ _ E1).
    destruct (IH (mkWorld (cwd w) (log w) (issued w)
                    (probed w ++ [source_path p; replica_path p]) (clock w)))
      as (w2 & E2 & C & Lg & I & K & P).
    { intros p' Hp'. exact (H p' (or_intror Hp')). }
    exists w2. split; [exact E2 |].
    cbn [cwd log issued probed clock] in C, Lg, I, K, P.
    repeat (split; [assumption |]).
    rewrite P. cbn [flat_map]. now rewrite <- app_assoc.
Qed.

(** With both enumerations alike, the deletion and creation passes find
    nothing to do. *)
Lemma aligned_passes_skip (host : platform) (s : FileSync) (w : world) :
  rep_folders s = src_folders s ->
  rep_files s = src_files s ->
  _check_item_deletion host s w = Ok tt w /\
  _check_item_creation host s w = Ok tt w.
Proof.
  intros F3 F4. split.
  - unfold _check_item_deletion, bind.
    rewrite for_each_skip, for_each_skip; [reflexivity | |].
    + intros x Hx. unfold delete_file. rewrite <- F4.
      now rewrite (proj2 (mem_true_iff _ _) Hx).
    + intros x Hx. unfold delete_folder. rewrite <- F3.
      now rewrite (proj2 (mem_true_iff _ _) Hx).
  - unfold _check_item_creation, bind.
    rewrite for_each_skip, for_each_skip; [reflexivity | |].
    + intros x Hx. unfold create_file. rewrite F4.
      now rewrite (proj2 (mem_true_iff _ _) Hx).
    + intros x Hx. unfold create_folder. rewrite F3.
      now rewrite (proj2 (mem_true_iff _ _) Hx).
Qed.

(** X7.  A fixed point of the cycle.  On a Windows host, with the roots
    [source] and [replica] in the working directory and trees of plain
    names that hold neither root name: when the replica lists the same
    directories and files as the source, in the same order, every
    replica file shows the timestamp of its source file, and these
    timestamps convert to dates, a cycle completes, reads the two
    timestamps of every file in turn and does nothing else: nothing is
    removed, made or copied, no file is written and no line is printed.
    The turn of the scheduler goes on from there with the completion
    line and the sleep.  The contents of the files play no part: a
    replica file that differs from its source file under the same
    timestamp stays as it is. *)
Theorem cycle_leaves_replica_in_step_alone (self : FileSync) (w : world)
    (tree rtree : entries) :
  src_path self = "source" ->
  rep_path self = "replica" ->
  assoc "source" (cwd w) = Some (Dir tree) ->
  assoc "replica" (cwd w) = Some (Dir rtree) ->
  wf_node sync_name (Dir tree) = true ->
  in_step tree rtree ->
  timely Windows (Dir tree) = true ->
  exists w',
    sync_files Windows self w = Ok (scanned Windows self w) w' /\
    cwd w' = cwd w /\ log w' = log w /\ issued w' = issued w /\
    clock w' = clock w /\
    probed w'
    = probed w
      ++ flat_map (fun p => [source_path p; replica_path p]) (file_paths (Dir tree)) /\
    scheduler_turn Windows self w
    = (log_action Windows (scanned Windows self w) "Successfully synced" "" "" ;;
       time_sleep (sync_time self) ;;
       ret (scanned Windows self w)) w'.
Proof.
  intros Hsp Hrp Hs Hr Hwf (Hwr & Hd & Hf & Ht) Htime.
  assert (Hown : wf_node own_name (Dir tree) = true).
  { revert Hwf. apply wf_node_impl. exact sync_name_own. }
  destruct (scanned_source self w tree Hsp Hs Hown) as (F1 & F2).
  destruct (scanned_replica self w rtree Hrp Hr Hwr) as (F3 & F4).
  rewrite Hd, <- F1 in F3. rewrite Hf, <- F2 in F4.
  destruct (aligned_passes_skip Windows (scanned Windows self w) w F3 F4)
    as (Hdel & Hcre).
  destruct (same_time_loop (scanned Windows self w) (file_paths (Dir tree)) w)
    as (w' & E & C & Lg & I & K & P).
  { intros p Hp. split; [exact (file_paths_ok _ _ Hwf _ Hp) |].
    pose proof (ext_in_map Ht p Hp) as Hobs.
    apply (file_paths_lookup _ _ Hwf) in Hp as (_ & m & d & Hp).
    assert (Hst : stat (Dir tree) p = Found (File m d)).
    { unfold lookup in Hp. destruct (stat (Dir tree) p); congruence. }
    unfold observe in Hobs. rewrite Hst in Hobs.
    destruct (stat (Dir rtree) p) as [[m0 d0 | sub] | |] eqn:Hrt; try discriminate.
    injection Hobs as ->.
    exists m, d, d0. cbn [stat]. rewrite Hs, Hr.
    split; [exact Hst |]. split; [exact Hrt |].
    exact (timely_stat _ _ _ _ _ Htime Hst). }
  assert (Es : sync_files Windows self w = Ok (scanned Windows self w) w').
  { unfold sync_files, bind. rewrite Hdel, Hcre.
    unfold _check_item_modification. rewrite F4, combine_same, F2, map_map, E.
    reflexivity. }
  exists w'. split; [exact Es |]. repeat (split; [assumption |]).
  unfold scheduler_turn. now rewrite (bind_ok _ _ _ _ _ Es).
Qed.

(** The replica of [unnoticed_tree] holds another content of [a.txt]
    under the timestamp of the source file: the cycle leaves it there. *)
Lemma cycle_leaves_replica_in_step_alone_witness :
  exists w',
    sync_files Windows sample_sync (fresh_world unnoticed_tree)
    = Ok (scanned Windows sample_sync (fresh_world unnoticed_tree)) w' /\
    cwd w' = unnoticed_tree /\ log w' = [] /\ issued w' = [] /\
    clock w' = sample_clock /\
    probed w' = ["source\a.txt"; "replica\a.txt"] /\
    scheduler_turn Windows sample_sync (fresh_world unnoticed_tree)
    = (log_action Windows (scanned Windows sample_sync (fresh_world unnoticed_tree))
         "Successfully synced" "" "" ;;
       time_sleep (sync_time sample_sync) ;;
       ret (scanned Windows sample_sync (fresh_world unnoticed_tree))) w'.
Proof.
  apply (cycle_leaves_replica_in_step_alone sample_sync (fresh_world unnoticed_tree)
           [("a.txt", File 1 "new"); ("d", Dir [])]
           [("a.txt", File 1 "old"); ("d", Dir [])]);
    try reflexivity.
  repeat split.
Defined.

(* ------------------------------------------------------------------ *)
(** ** The pairs of the modification pass *)

Lemma in_combine_nth {A B : Type} (l1 : list A) (l2 : list B) (x : A) (y : B) :
  In (x, y) (combine l1 l2) ->
  exists i, nth_error l1 i = Some x /\ nth_error l2 i = Some y.
Proof.
  revert l2. induction l1 as [|a l1 IH]; intros [|b l2] H; try destruct H.
  - injection H as -> ->. now exists 0.
  - destruct (IH _ H) as (i & H1 & H2). now exists (S i).
Qed.

(** A loop whose body issues at most one action issues at most one action
    for each item. *)
Lemma for_each_issues_at_most {A : Type} (l : list A) (body : A -> M unit) :
  (forall x w, List.length (issued (final_world (body x w))) <= S (List.length (issued w))) ->
  forall w,
    List.length (issued (final_world (for_each l body w)))
    <= List.length l + List.length (issued w).
Proof.
  intros H. induction l as [|x l IH]; intros w; cbn [for_each]; [cbn; lia |].
  unfold bind. specialize (H x w).
  destruct (body x w) as [[] w1 | e w1]; cbn [final_world] in H |- *.
  - specialize (IH w1). cbn [List.length]. lia.
  - cbn [List.length]. lia.
Qed.

Lemma modify_file_issues_at_most_one (host : platform) (self : FileSync)
    (files : string * string) (w : world) :
  List.length (issued (final_world (modify_file host self files w)))
  <= S (List.length (issued w)).
Proof.
  destruct files as [sf rf]. unfold modify_file, bind.
  pose proof (silent_get_file_time host sf w) as K1.
  destruct (_get_file_time host sf w) as [t1 w1 | e1 w1]; cbn [final_world] in K1 |- *;
    [| rewrite K1; lia].
  pose proof (silent_get_file_time host (replace rf "source" "replica") w1) as K2.
  destruct (_get_file_time host (replace rf "source" "replica") w1)
    as [t2 w2 | e2 w2]; cbn [final_world] in K2 |- *;
    [| rewrite K2, K1; lia].
  destruct (negb (t1 =? t2)%Z); [| cbn [ret final_world]; rewrite K2, K1; lia].
  unfold issue.
  set (w3 := mkWorld (cwd w2) (log w2) (issued w2 ++ _) (probed w2) (clock w2)).
  pose proof (silent_copy2 host sf (replace rf "source" "replica") w3) as K3.
  assert (L3 : List.length (issued w3) = S (List.length (issued w))).
  { subst w3. cbn [issued]. rewrite length_app, K2, K1. cbn. lia. }
  destruct (copy2 host sf (replace rf "source" "replica") w3) as [[] w4 | e4 w4];
    cbn [final_world] in K3 |- *.
  - rewrite (silent_log_action host self "Modified" sf _ w4), K3. lia.
  - rewrite K3. lia.
Qed.

(** [_get_file_time] asks for its path, whatever comes of it. *)
Lemma get_file_time_probes (host : platform) (path : string) (w : world) :
  probed (final_world (_get_file_time host path w)) = probed w ++ [path].
Proof.
  unfold _get_file_time, bind at 1, probe.
  set (w0 := mkWorld (cwd w) (log w) (issued w) (probed w ++ [path]) (clock w)).
  change (probed w ++ [path]) with (probed w0).
  apply (preserves_bind probed); [apply preserves_getmtime |].
  intros t. apply preserves_fromtimestamp.
Qed.

(** One pair: the source file is asked first, then the rewritten replica
    file; the second is not asked when the first reading fails. *)
Lemma modify_file_probes (host : platform) (self : FileSync) (sf rf : string)
    (w : world) :
  exists pl rest,
    probed (final_world (modify_file host self (sf, rf) w)) = probed w ++ pl /\
    [sf; replace rf "source" "replica"] = pl ++ rest /\
    (completed (modify_file host self (sf, rf) w) = true -> rest = []).
Proof.
  unfold modify_file, bind. cbn [fst snd].
  pose proof (get_file_time_probes host sf w) as K1.
  destruct (_get_file_time host sf w) as [t1 w1 | e1 w1]; cbn [final_world] in K1 |- *.
  - exists [sf; replace rf "source" "replica"], [].
    split; [| split; [reflexivity | reflexivity]].
    pose proof (get_file_time_probes host (replace rf "source" "replica") w1) as K2.
    destruct (_get_file_time host (replace rf "source" "replica") w1)
      as [t2 w2 | e2 w2]; cbn [final_world] in K2 |- *.
    + assert (K : probed w2 = probed w ++ [sf; replace rf "source" "replica"])
        by (rewrite K2, K1, <- app_assoc; reflexivity).
      rewrite <- K. destruct (negb (t1 =? t2)%Z); [| reflexivity].
      apply (mute_guarded_call host self ModifyFile sf _ "Modified").
      apply preserves_copy2, probed_set_cwd.
    + now rewrite K2, K1, <- app_assoc.
  - exists [sf], [replace rf "source" "replica"].
    split; [exact K1 |]. split; [reflexivity | discriminate].
Qed.

Lemma for_each_probes_in_order {A : Type} (g : A -> list string)
    (body : A -> M unit) :
  (forall x w, exists pl rest,
      probed (final_world (body x w)) = probed w ++ pl /\
      g x = pl ++ rest /\
      (completed (body x w) = true -> rest = [])) ->
  forall l w, exists pl rest,
    probed (final_world (for_each l body w)) = probed w ++ pl /\
    flat_map g l = pl ++ rest /\
    (completed (for_each l body w) = true -> rest = []).
Proof.
  intros H. induction l as [|x l IH]; intros w; cbn [for_each flat_map].
  - exists [], []. cbn [ret final_world]. now rewrite app_nil_r.
  - unfold bind. destruct (H x w) as (pl1 & rest1 & E1 & G1 & C1).
    destruct (body x w) as [[] w1 | e w1]; cbn [final_world completed] in E1, C1 |- *.
    + rewrite (C1 eq_refl), app_nil_r in G1.
      destruct (IH w1) as (pl2 & rest2 & E2 & G2 & C2).
      exists (pl1 ++ pl2), rest2. split; [| split; [| exact C2]].
      * now rewrite E2, E1, app_assoc.
      * now rewrite G1, G2, app_assoc.
    + exists pl1, (rest1 ++ flat_map g l). split; [exact E1 |].
      split; [| discriminate]. now rewrite G1, app_assoc.
Qed.

(** X9.  The modification pass pairs the two file lists by position, on
    either host and from any state.  Every action it issues is a
    modification that takes the source file at some position of
    [src_files] and, as its target, the rewritten replica file at the same
    position of [rep_files]; it issues at most as many actions as the
    shorter list has entries; and the timestamps it asks for are those of
    the pairs [zip] makes, in order, the source file of a pair before its
    rewritten replica file: an initial part of that sequence, and all of
    it when the pass completes.  So the files past the end of the shorter
    list are never compared. *)
Theorem modification_pairs_files_by_position (host : platform) (self : FileSync)
    (w : world) :
  Forall (fun a =>
            act_kind a = ModifyFile /\
            exists i r,
              nth_error (src_files self) i = Some (sourcePath a) /\
              nth_error (rep_files self) i = Some r /\
              replicaPath a = replace r "source" "replica")
    (new_actions w (_check_item_modification host self w)) /\
  List.length (new_actions w (_check_item_modification host self w))
  <= Nat.min (List.length (src_files self)) (List.length (rep_files self)) /\
  exists rest,
    flat_map (fun files => [fst files; replace (snd files) "source" "replica"])
      (combine (src_files self) (rep_files self))
    = new_probes w (_check_item_modification host self w) ++ rest /\
    (completed (_check_item_modification host self w) = true -> rest = []).
Proof.
  split; [| split].
  - destruct (emits_for_each_in
                (fun x a => a = mkAction ModifyFile (fst x)
                                  (replace (snd x) "source" "replica"))
                (combine (src_files self) (rep_files self)) (modify_file host self))
      with (w := w) as (l & E & F).
    { intros x. refine (emits_weaken _ _ _ _ (emits_modify_file host self x)).
      now intros a <-. }
    unfold _check_item_modification. rewrite (new_actions_spec _ _ _ E).
    revert F. apply Forall_impl. intros a ([sf rf] & Hin & ->).
    cbn [act_kind sourcePath replicaPath fst snd]. split; [reflexivity |].
    destruct (in_combine_nth _ _ _ _ Hin) as (i & H1 & H2). now exists i, rf.
  - unfold new_actions, _check_item_modification. rewrite length_skipn.
    pose proof (for_each_issues_at_most (combine (src_files self) (rep_files self))
                  (modify_file host self) (modify_file_issues_at_most_one host self) w)
      as H.
    rewrite length_combine in H. lia.
  - unfold _check_item_modification.
    destruct (for_each_probes_in_order
                (fun files => [fst files; replace (snd files) "source" "replica"])
                (modify_file host self)) with
      (l := combine (src_files self) (rep_files self)) (w := w)
      as (pl & rest & E & G & C).
    { intros [sf rf] w0. exact (modify_file_probes host self sf rf w0). }
    exists rest. rewrite (new_probes_spec _ _ _ E). now split.
Qed.

(* ------------------------------------------------------------------ *)
(** ** The log file *)

(** What [set_log_file] leaves behind when it completes. *)
Lemma set_log_file_ok (host : platform) (self : FileSync) (now : Z) (w w' : world) :
  set_log_file host self now w = Ok tt w' ->
  os_path_exists host (log_path self) w' = true.
Proof.
  unfold set_log_file.
  destruct (os_path_exists host (log_path self) w) eqn:Ex; cbn [negb].
  - now intros [= <-].
  - unfold open_w_close, os_path_exists, path_exists in *.
    destruct (String.eqb (log_path self) "") eqn:E0; [discriminate |].
    cbn [negb andb] in Ex |- *.
    destruct (stat (Dir (cwd w)) (resolve host (log_path self))) as [[m d | es] | |];
      try discriminate; intros H; now rewrite (commit_stat _ _ _ _ H).
Qed.

(** X10.  [set_log_file] creates the log file at most once, on either
    host and from any state.  When the call completes, the log path exists
    afterwards; and a second call, at any later time, has the outcome of
    the first and leaves the world of the first: a log file that exists is
    neither emptied nor given a new timestamp, and a call that fails (the
    directory of the log path is missing) fails again in the same way. *)
Theorem set_log_file_creates_once (host : platform) (self : FileSync)
    (t1 t2 : Z) (w : world) :
  (set_log_file host self t1 ;; set_log_file host self t2) w
  = set_log_file host self t1 w /\
  (if completed (set_log_file host self t1 w)
   then os_path_exists host (log_path self) (final_world (set_log_file host self t1 w))
   else true) = true.
Proof.
  destruct (set_log_file host self t1 w) as [[] w1 | e w1] eqn:E;
    cbn [completed final_world].
  - pose proof (set_log_file_ok _ _ _ _ _ E) as Ex. split; [| exact Ex].
    rewrite (bind_ok _ _ _ _ _ E). unfold set_log_file. now rewrite Ex.
  - split; [| reflexivity]. now rewrite (bind_raise _ _ _ _ _ E).
Qed.

